(** * walle release-note generator: a shallow embedding and its properties

    The development follows [walle/releasenote/generator.py] (the release-note
    derivation pipeline) and [walle/cli/batch.py] (the parser that reads the
    rendered markdown back).  Python [str] values are lists of characters;
    characters are the code points below 256.  Dictionaries are finite maps,
    the forge client is a record of fallible operations, and the regular
    expressions of the source are terms of a small pattern language that is
    run by a backtracking matcher. *)

From Stdlib Require Import ZArith Ascii String List Lia DecimalString.
From stdpp Require Import gmap strings list.

Abbreviation str := (list ascii).
Coercion list_ascii_of_string : string >-> list.

(** The line feed, the double quote and the other characters that a Rocq
    literal cannot carry are named by their code. *)
Definition LF : ascii := "010"%char.
Definition DQUOTE : ascii := "034"%char.

(** ** Python string operations *)
Module Py.

(** [str.isspace] on one character, for code points below 256. *)
Definition isspace (c : ascii) : bool :=
  let n := nat_of_ascii c in
  ((9 <=? n) && (n <=? 13)) || ((28 <=? n) && (n <=? 32))
  || (n =? 133) || (n =? 160).

(** [\d] and [str.isdecimal] on one character. *)
Definition isdigit (c : ascii) : bool :=
  let n := nat_of_ascii c in (48 <=? n) && (n <=? 57).

(** ASCII lower-casing: the only case folding that can relate a code point
    below 256 to one of the ASCII letters of the patterns. *)
Definition lower (c : ascii) : ascii :=
  let n := nat_of_ascii c in
  if (65 <=? n) && (n <=? 90) then ascii_of_nat (n + 32) else c.

Fixpoint lstrip (s : str) : str :=
  match s with
  | c :: s' => if isspace c then lstrip s' else s
  | [] => []
  end.

Definition rstrip (s : str) : str := reverse (lstrip (reverse s)).

(** [s.strip()] *)
Definition strip (s : str) : str := lstrip (rstrip s).

(** [c in s] for a one-character [c]. *)
Definition contains (c : ascii) (s : str) : bool := bool_decide (c ∈ s).

(** The text before and after the first occurrence of [c]. *)
Fixpoint split_once (c : ascii) (s : str) : option (str * str) :=
  match s with
  | [] => None
  | x :: s' =>
      if bool_decide (x = c) then Some ([], s')
      else match split_once c s' with
           | Some (a, b) => Some (x :: a, b)
           | None => None
           end
  end.

(** [s.split(c, 1)] *)
Definition split1 (c : ascii) (s : str) : list str :=
  match split_once c s with
  | Some (a, b) => [a; b]
  | None => [s]
  end.

(** [s.split(c)] *)
Fixpoint split (c : ascii) (s : str) : list str :=
  match s with
  | [] => [[]]
  | x :: s' =>
      if bool_decide (x = c) then [] :: split c s'
      else match split c s' with
           | l :: ls => (x :: l) :: ls
           | [] => [[x]]
           end
  end.

(** [sep.join(ls)] *)
Fixpoint join (sep : str) (ls : list str) : str :=
  match ls with
  | [] => []
  | [l] => l
  | l :: ls' => l ++ sep ++ join sep ls'
  end.

(** [s.startswith(p)] *)
Fixpoint startswith (p s : str) : bool :=
  match p, s with
  | [], _ => true
  | a :: p', b :: s' => bool_decide (a = b) && startswith p' s'
  | _ :: _, [] => false
  end.

Definition digit_value (c : ascii) : Z := Z.of_nat (nat_of_ascii c) - 48.

(** The default of [sys.get_int_max_str_digits()]: the number of digits
    beyond which [int] refuses a decimal string, leading zeros counted. *)
Definition INT_MAX_STR_DIGITS : nat := 4300.

(** [int(s)] on the strings the pattern [\d+] can capture: the value of a
    non-empty string of at most [INT_MAX_STR_DIGITS] decimal digits;
    anything else is the [ValueError] case, [None]. *)
Definition int (s : str) : option Z :=
  if bool_decide (s ≠ []) && forallb isdigit s
     && bool_decide (length s <= INT_MAX_STR_DIGITS)
  then Some (foldl (fun acc c => 10 * acc + digit_value c)%Z 0%Z s)
  else None.

(** [str(n)] for an integer. *)
Definition str_of_int (n : Z) : str :=
  list_ascii_of_string (NilZero.string_of_int (Z.to_int n)).

End Py.

(** ** Regular expressions: a backtracking matcher with capture groups *)
Module Re.

Inductive re : Type :=
| Eps                        (* the empty pattern *)
| Lit (l : str)              (* literal text *)
| Cls (p : ascii -> bool)    (* one character of a class: [.], [\s], [\d], [[^( ]] *)
| Seq (r1 r2 : re)
| Alt (r1 r2 : re)           (* [r1|r2], [r1] preferred *)
| Star (r : re)              (* greedy [r*] *)
| Grp (n : nat) (r : re)     (* capture group number [n] *)
| Bol                        (* [^] *)
| Eol.                       (* [$]: at the end, or before a final line feed *)

Infix "+>" := Seq (at level 60, right associativity).

Definition Plus (r : re) : re := Seq r (Star r).
Definition Opt (r : re) : re := Alt r Eps.

Definition dot (c : ascii) : bool := negb (bool_decide (c = LF)).
Definition none_of (l : str) (c : ascii) : bool := negb (bool_decide (c ∈ l)).

(** A compiled pattern: the [(?i)] flag and the expression. *)
Record pattern := Pattern { ignorecase : bool; expr : re }.

Definition captures := list (nat * str).

Definition chr_eq (ic : bool) (x c : ascii) : bool :=
  if ic then bool_decide (Py.lower x = Py.lower c) else bool_decide (x = c).

(** Literal text at the head of [s]; the rest of [s] on success. *)
Fixpoint lit (ic : bool) (l s : str) : option str :=
  match l, s with
  | [], _ => Some s
  | c :: l', x :: s' => if chr_eq ic x c then lit ic l' s' else None
  | _ :: _, [] => None
  end.

Definition cont := str -> captures -> option captures.

(** Greedy iteration of [body]: every round must consume input. *)
Fixpoint star_loop (body : str -> captures -> cont -> option captures)
    (fuel : nat) (s : str) (cs : captures) (k : cont) : option captures :=
  match fuel with
  | 0 => k s cs
  | S f =>
      match body s cs (fun s' cs' =>
              if bool_decide (length s' < length s)
              then star_loop body f s' cs' k else None) with
      | Some r => Some r
      | None => k s cs
      end
  end.

(** [run ic n r s cs k]: match [r] at the head of [s], the rest of a
    subject of length [n], then continue with [k]; a failed continuation
    makes the matcher try its next alternative. *)
Fixpoint run (ic : bool) (n : nat) (r : re) (s : str) (cs : captures)
    (k : cont) {struct r} : option captures :=
  match r with
  | Eps => k s cs
  | Lit l => match lit ic l s with Some s' => k s' cs | None => None end
  | Cls p =>
      match s with
      | x :: s' => if p x then k s' cs else None
      | [] => None
      end
  | Seq r1 r2 => run ic n r1 s cs (fun s' cs' => run ic n r2 s' cs' k)
  | Alt r1 r2 =>
      match run ic n r1 s cs k with
      | Some r => Some r
      | None => run ic n r2 s cs k
      end
  | Star r1 => star_loop (run ic n r1) (length s) s cs k
  | Grp g r1 =>
      run ic n r1 s cs
        (fun s' cs' => k s' ((g, take (length s - length s') s) :: cs'))
  | Bol => if bool_decide (length s = n) then k s cs else None
  | Eol =>
      match s with
      | [] => k s cs
      | [x] => if bool_decide (x = LF) then k s cs else None
      | _ => None
      end
  end.

Definition accept : cont := fun _ cs => Some cs.

(** [pattern.match(s)]: a match at the start of [s]. *)
Definition rmatch (p : pattern) (s : str) : option captures :=
  run (ignorecase p) (length s) (expr p) s [] accept.

Fixpoint search_from (p : pattern) (n : nat) (s : str) : option captures :=
  match run (ignorecase p) n (expr p) s [] accept with
  | Some cs => Some cs
  | None =>
      match s with
      | [] => None
      | _ :: s' => search_from p n s'
      end
  end.

(** [pattern.search(s)]: the match at the leftmost position that has one. *)
Definition search (p : pattern) (s : str) : option captures :=
  search_from p (length s) s.

(** [m.group(g)].  The groups the source reads take part in every match of
    their pattern; a group that took no part reads as empty here. *)
Fixpoint group (cs : captures) (g : nat) : str :=
  match cs with
  | [] => []
  | (g', v) :: cs' => if bool_decide (g' = g) then v else group cs' g
  end.

(** *** What a pattern matches

    [matches ic n r m s cs cs']: in a subject of length [n], [r] matches the
    text [m] when [s] follows it, and turns the captures [cs] into [cs']. *)
Definition lit_eq (ic : bool) (l m : str) : Prop :=
  Forall2 (fun c x => chr_eq ic x c = true) l m.

Inductive matches (ic : bool) (n : nat)
    : re -> str -> str -> captures -> captures -> Prop :=
| M_eps s cs : matches ic n Eps [] s cs cs
| M_lit l m s cs : lit_eq ic l m -> matches ic n (Lit l) m s cs cs
| M_cls (p : ascii -> bool) x s cs :
    p x = true -> matches ic n (Cls p) [x] s cs cs
| M_seq r1 r2 m1 m2 s cs cs1 cs2 :
    matches ic n r1 m1 (m2 ++ s) cs cs1 ->
    matches ic n r2 m2 s cs1 cs2 ->
    matches ic n (Seq r1 r2) (m1 ++ m2) s cs cs2
| M_alt_l r1 r2 m s cs cs' :
    matches ic n r1 m s cs cs' -> matches ic n (Alt r1 r2) m s cs cs'
| M_alt_r r1 r2 m s cs cs' :
    matches ic n r2 m s cs cs' -> matches ic n (Alt r1 r2) m s cs cs'
| M_star_nil r s cs : matches ic n (Star r) [] s cs cs
| M_star_cons r m1 m2 s cs cs1 cs2 :
    m1 <> [] ->
    matches ic n r m1 (m2 ++ s) cs cs1 ->
    matches ic n (Star r) m2 s cs1 cs2 ->
    matches ic n (Star r) (m1 ++ m2) s cs cs2
| M_grp g r m s cs cs' :
    matches ic n r m s cs cs' -> matches ic n (Grp g r) m s cs ((g, m) :: cs')
| M_bol s cs : length s = n -> matches ic n Bol [] s cs cs
| M_eol s cs : s = [] \/ s = [LF] -> matches ic n Eol [] s cs cs.

End Re.

(** ** [walle/releasenote/generator.py] *)
Module Generator.
Import Re.

Definition TITLE_CHANGES : str := "_Changes:_".
Definition TITLE_BUG_FIX : str := "**Bug Fix:**".
Definition TITLE_NEW_FEATURE : str := "_New Features:_".
Definition TITLE_DOCUMENTATION : str := "Documentation:".
Definition TITLE_OTHER : str := "Other:".

Definition LABEL_RELEASE_NOTE_NONE : str := "release-note-none".
Definition DEFAULT_WORKER_COUNT : nat := 4.

Definition KINDS : gmap str str :=
  {[ ("feat" : str) := TITLE_NEW_FEATURE;
     ("fix" : str) := TITLE_BUG_FIX;
     ("refactor" : str) := TITLE_CHANGES;
     ("docs" : str) := TITLE_DOCUMENTATION ]}.

Definition DEFAULT_KIND : str := TITLE_OTHER.

Definition SORTED_KINDS : list str :=
  [TITLE_BUG_FIX; TITLE_NEW_FEATURE; TITLE_CHANGES; TITLE_DOCUMENTATION;
   TITLE_OTHER].

Definition quote : re := Alt (Lit "'") (Lit [DQUOTE]).
Definition words : re := Alt (Lit "none") (Alt (Lit "n/a") (Lit "na")).

(** The first filter, compiled with [(?i)]: a fence, [release-note], an
    optional [s], blanks, an optional quote (group 1; single or double), an
    optional [none|n/a|na] (group 2), an optional quote (group 3), blanks
    and a fence. *)
Definition FILTER_FENCED : pattern :=
  Pattern true
    (Lit "```release-note" +> Opt (Lit "s") +> Star (Cls Py.isspace)
     +> Opt (Grp 1 quote)
     +> Opt (Grp 2 words)
     +> Opt (Grp 3 quote)
     +> Star (Cls Py.isspace) +> Lit "```").

(** [/release-note-none] *)
Definition FILTER_DIRECTIVE : pattern :=
  Pattern false (Lit "/release-note-none").

Definition NOTE_EXCLUSION_FILTERS : list pattern :=
  [FILTER_FENCED; FILTER_DIRECTIVE].

(** [TAG_MATCHER_RE]: at the start, group 1 is one or more characters other
    than an opening parenthesis and a space; then an opening parenthesis,
    group 2 (any characters but line feeds, greedy), a closing parenthesis
    and the end. *)
Definition TAG_MATCHER_RE : pattern :=
  Pattern false
    (Bol +> Grp 1 (Plus (Cls (none_of "( "))) +> Lit "("
     +> Grp 2 (Star (Cls dot)) +> Lit ")" +> Eol).

Fixpoint matches_exclude_filter_in (filters : list pattern) (msg : str) : bool :=
  match filters with
  | [] => false
  | filter_re :: rest =>
      if bool_decide (is_Some (search filter_re msg)) then true
      else matches_exclude_filter_in rest msg
  end.

Definition matches_exclude_filter (msg : str) : bool :=
  matches_exclude_filter_in NOTE_EXCLUSION_FILTERS msg.

(** The body of the loop of [join_notes], in its four steps.  First the
    split on the first colon, [['', item]] when there is none, and the two
    strips. *)
Definition split_item (item : str) : str * str :=
  let parts := Py.split1 ":" item in
  let parts := if bool_decide (length parts ≠ 2) then [[]; item] else parts in
  (Py.strip (parts !!! 0), Py.strip (parts !!! 1)).

(** Then the scope of a tag like [feat(scope)]. *)
Definition split_scope (tag summary : str) : str * str :=
  if Py.contains "(" tag then
    match rmatch TAG_MATCHER_RE tag with
    | Some m =>
        let tag := group m 1 in
        let scope := group m 2 in
        if bool_decide (scope ≠ []) && bool_decide (scope ≠ ("*" : str))
        then (tag, scope ++ ": " ++ summary)
        else (tag, summary)
    | None => (tag, summary)
    end
  else (tag, summary).

Definition parse_tag (item : str) : str * str :=
  let '(tag, summary) := split_item item in
  split_scope tag summary.

(** Then the category of the tag and the guard on its spaces. *)
Definition classify (item : str) : str * str :=
  let '(tag, summary) := parse_tag item in
  let kind := default DEFAULT_KIND (KINDS !! tag) in
  let summary :=
    if bool_decide (tag ≠ []) && Py.contains " " tag then item else summary in
  (kind, summary).

Definition add_note (releases : gmap str (list str)) (item : str)
    : gmap str (list str) :=
  let '(kind, summary) := classify item in
  let releases :=
    if bool_decide (is_Some (releases !! kind)) then releases
    else <[kind := []]> releases in
  <[kind := default [] (releases !! kind) ++ [summary]]> releases.

Definition group_notes (items : list str) : gmap str (list str) :=
  foldl add_note ∅ items.

Definition section (kind : str) (items_list : list str) : str :=
  kind ++ [LF] ++ "- "
    ++ Py.join [LF] (map (fun item => "- " ++ item) items_list) ++ [LF].

Definition sections (releases : gmap str (list str)) : list str :=
  omap (fun kind => section kind <$> releases !! kind) SORTED_KINDS.

Definition join_notes (items : list str) : str :=
  Py.join [LF] (sections (group_notes items)).

(** [LABEL in array], the helper of [walle/config/settings.py]. *)
Definition is_in_array (item : str) (array : list str) : bool :=
  bool_decide (item ∈ array).

(** *** Forge data and the client *)

(** Timestamps are [datetime] objects: every one of them is true in a
    boolean context, only [None] is false. *)
Definition datetime := Z.

Record Tag := { t_name : str; t_created_at : datetime }.

Record Commit := { c_id : str; c_message : str; c_created_at : datetime }.

Record MergeRequest := {
  mr_iid : Z;
  mr_title : str;
  mr_description : str;
  mr_web_url : str;
  mr_labels : list str;
  mr_username : str
}.

Inductive exn := Exception (msg : str).

(** What a call gives: a value, or an exception. *)
Inductive outcome (A : Type) :=
| Return (a : A)
| Raise (e : exn).
Arguments Return {A} a.
Arguments Raise {A} e.

Record Client := {
  list_tags : str -> outcome (list Tag);
  get_commit : str -> str -> outcome (option Commit);
  list_commits :
    str -> str -> option datetime -> option datetime -> outcome (list Commit);
  get_merge_request : str -> Z -> outcome (option MergeRequest)
}.

Definition generate_title (mr : MergeRequest) : str :=
  mr_title mr ++ " ([!" ++ Py.str_of_int (mr_iid mr) ++ "](" ++ mr_web_url mr
    ++ ")) @" ++ mr_username mr.

(** [condition=None] keeps every merge request. *)
Definition generate_release_notes (mrs : list MergeRequest)
    (condition : option (MergeRequest -> bool)) : str :=
  let condition := default (fun _ => true) condition in
  join_notes (map generate_title (List.filter condition mrs)).

(** *** Merge requests of commits *)

(** The pattern of [mr_num_for_commit_from_message]: two line feeds,
    [See merge request ], one or more characters other than line feeds, an
    exclamation mark, group 1 (one or more digits) and the end. *)
Definition mr_pattern : pattern :=
  Pattern false
    (Lit ([LF; LF] ++ "See merge request ") +> Plus (Cls dot) +> Lit "!"
     +> Grp 1 (Plus (Cls Py.isdigit)) +> Eol).

Definition mr_num_for_commit_from_message (commit_message : str) : Z :=
  match search mr_pattern commit_message with
  | None => 0
  | Some m =>
      match Py.int (group m 1) with
      | Some n => n
      | None => 0
      end
  end.

(** The iids for which a fetch is submitted. *)
Definition mr_iids (commits : list Commit) : list Z :=
  List.filter (fun iid => 0 <? iid)%Z
    (map (fun commit => mr_num_for_commit_from_message (c_message commit))
       commits).

Definition future := (Z * outcome (option MergeRequest))%type.

Definition submit (client : Client) (project : str) (iid : Z) : future :=
  (iid, get_merge_request client project iid).

Definition collect (f : future) : option MergeRequest :=
  match f with
  | (_, Return (Some mr)) => Some mr
  | (_, Return None) => None
  | (_, Raise _) => None
  end.

(** [as_completed] is the order in which the pool hands the futures back. *)
Definition mr_from_commits (as_completed : list future -> list future)
    (commits : list Commit) (client : Client) (project : str)
    : list MergeRequest :=
  match commits with
  | [] => []
  | _ =>
      match mr_iids commits with
      | [] => []
      | iids => omap collect (as_completed (map (submit client project) iids))
      end
  end.

(** *** The range of a tag *)

Fixpoint find_tag (tags : list Tag) (name : str) : option Tag :=
  match tags with
  | [] => None
  | tag :: rest =>
      if bool_decide (t_name tag = name) then Some tag else find_tag rest name
  end.

(** The loop of the automatic detection, entered with [since_at] unset. *)
Fixpoint auto_detect (tags : list Tag) (tag_name : str) (tag_exists : bool)
    (until_at : option datetime) : bool * option datetime * option datetime :=
  match tags with
  | [] => (tag_exists, None, until_at)
  | tag :: rest =>
      if bool_decide (t_name tag = tag_name)
      then auto_detect rest tag_name true (Some (t_created_at tag))
      else (tag_exists, Some (t_created_at tag), until_at)
  end.

(** [since] is true in a boolean context: given and not empty. *)
Definition given (since : option str) : option str :=
  match since with
  | Some [] => None
  | _ => since
  end.

Definition resolve_since (client : Client) (project : str) (tags : list Tag)
    (since : str) : option datetime :=
  match find_tag tags since with
  | Some tag => Some (t_created_at tag)
  | None =>
      match get_commit client project since with
      | Return (Some commit_info) => Some (c_created_at commit_info)
      | Return None => None
      | Raise _ => None
      end
  end.

Definition resolve_range (client : Client) (project : str) (tags : list Tag)
    (tag_name : str) (since : option str)
    : bool * option datetime * option datetime :=
  let '(tag_exists, since_at, until_at) :=
    match given since with
    | Some since =>
        let '(tag_exists, until_at) :=
          match find_tag tags tag_name with
          | Some tag => (true, Some (t_created_at tag))
          | None => (false, None)
          end in
        (tag_exists, resolve_since client project tags since, until_at)
    | None => (false, None, None)
    end in
  match since_at with
  | Some _ => (tag_exists, since_at, until_at)
  | None => auto_detect tags tag_name tag_exists until_at
  end.

(** *** The pipeline *)

Definition condition (mr : MergeRequest) : bool :=
  let exclude :=
    matches_exclude_filter (mr_description mr)
    || is_in_array LABEL_RELEASE_NOTE_NONE (mr_labels mr) in
  negb exclude.

(** The commits handed to [mr_from_commits]. *)
Definition skip_first (since_at : option datetime) (commits : list Commit)
    : list Commit :=
  match commits, since_at with
  | _ :: rest, Some _ => rest
  | _, _ => commits
  end.

Definition get_release_notes_by_tag
    (as_completed : list future -> list future) (client : Client)
    (project tag_name ref : str) (since : option str)
    : bool * str * option exn :=
  match list_tags client project with
  | Raise e => (false, [], Some e)
  | Return [] => (false, [], Some (Exception "No tags found in project"))
  | Return tags =>
      let '(tag_exists, since_at, until_at) :=
        resolve_range client project tags tag_name since in
      match list_commits client project ref since_at until_at with
      | Raise e => (false, [], Some e)
      | Return [] => (tag_exists, [], None)
      | Return commits =>
          let commits := skip_first since_at commits in
          let mrs := mr_from_commits as_completed commits client project in
          let release_notes := generate_release_notes mrs (Some condition) in
          (tag_exists, release_notes, None)
      end
  end.

End Generator.

(** ** [walle/cli/batch.py]: reading the rendered notes back *)
Module Batch.

Definition categories : list (str * str) :=
  [ ("**Bug Fix:**" : str, "bug_fixes" : str);
    ("_New Features:_" : str, "new_features" : str);
    ("_Changes:_" : str, "changes" : str);
    ("Documentation:" : str, "documentation" : str);
    ("Other:" : str, "other" : str) ].

Fixpoint find_category (cats : list (str * str)) (line : str) : option str :=
  match cats with
  | [] => None
  | (category_header, category_key) :: rest =>
      if Py.startswith category_header line then Some category_key
      else find_category rest line
  end.

(** One round of the loop: the state is [result] and [current_category]. *)
Definition parse_line (project_name : str)
    (st : gmap str (list str) * option str) (line : str)
    : gmap str (list str) * option str :=
  let '(result, current_category) := st in
  let line := Py.strip line in
  match line with
  | [] => st
  | _ =>
      match find_category categories line with
      | Some category_key => (result, Some category_key)
      | None =>
          match current_category with
          | Some cat =>
              if Py.startswith "-" line then
                let item := Py.strip (drop 1 line) in
                (<[cat := default [] (result !! cat)
                           ++ ["**" ++ project_name ++ "**: " ++ item]]> result,
                 current_category)
              else st
          | None => st
          end
      end
  end.

Definition parse_release_notes (release_notes : str) (project_name : str)
    : gmap str (list str) :=
  (foldl (parse_line project_name) (∅, None) (Py.split LF release_notes)).1.

End Batch.

(** ** The vocabulary of the statements *)
Module Spec.
Import Generator.

(** The marker of the trailer a forge appends to a merge commit. *)
Definition MARKER : str := [LF; LF] ++ "See merge request ".

(** [msg] ends in a trailer with the digits [ds]: the marker, a non-empty
    text without line feeds, an exclamation mark and the digits, with at
    most one line feed after them. *)
Definition has_trailer (msg ds : str) : Prop :=
  exists pre any tl,
    msg = pre ++ MARKER ++ any ++ "!" ++ ds ++ tl
    /\ any <> [] /\ (LF ∉ any)
    /\ ds <> [] /\ Forall (fun c => Py.isdigit c = true) ds
    /\ (tl = [] \/ tl = [LF]).

(** [msg] ends, at its very end, in the marker, any text, an exclamation
    mark and the digits [ds]. *)
Definition ends_with_trailer (msg ds : str) : Prop :=
  exists pre any,
    msg = pre ++ MARKER ++ any ++ "!" ++ ds
    /\ ds <> [] /\ Forall (fun c => Py.isdigit c = true) ds.

(** The number that decimal digits denote. *)
Definition decimal (ds : str) : Z :=
  foldl (fun acc c => 10 * acc + Py.digit_value c)%Z 0%Z ds.

(** The category of a conventional-commit type. *)
Definition kind_of_type (type : str) : str :=
  if bool_decide (type = ("feat" : str)) then TITLE_NEW_FEATURE
  else if bool_decide (type = ("fix" : str)) then TITLE_BUG_FIX
  else if bool_decide (type = ("refactor" : str)) then TITLE_CHANGES
  else if bool_decide (type = ("docs" : str)) then TITLE_DOCUMENTATION
  else TITLE_OTHER.

(** A type: a non-empty word without blanks, parentheses and colons. *)
Definition is_type (type : str) : Prop :=
  type <> []
  /\ Forall (fun c => Py.isspace c = false /\ c <> "("%char /\ c <> ":"%char)
       type.

(** A scope: a text without colons and line feeds. *)
Definition is_scope (scope : str) : Prop :=
  (":"%char ∉ scope) /\ (LF ∉ scope).

(** The shape [type(scope)] that [TAG_MATCHER_RE] accepts. *)
Definition tag_shape (tag : str) : Prop :=
  exists type scope,
    tag = type ++ "(" ++ scope ++ ")"
    /\ type <> [] /\ (" "%char ∉ type) /\ ("("%char ∉ type) /\ (LF ∉ scope).

(** Equality up to the case of the ASCII letters. *)
Definition nocase_eq (a b : str) : Prop := map Py.lower a = map Py.lower b.

Definition blanks (w : str) : Prop := Forall (fun c => Py.isspace c = true) w.

(** No quote, a single quote or a double quote. *)
Definition opt_quote (q : str) : Prop :=
  q = [] \/ q = ("'" : str) \/ q = [DQUOTE].

Definition none_word (w : str) : Prop :=
  w = [] \/ nocase_eq w "none" \/ nocase_eq w "n/a" \/ nocase_eq w "na".

(** A fence tagged [release-note] or [release-notes] whose whole content is
    blanks, an optional quote, nothing or one of the words for none, an
    optional quote and blanks, up to the closing fence. *)
Definition fenced_none (m : str) : Prop :=
  exists tagw s ws1 q1 body q2 ws2,
    m = "```" ++ tagw ++ s ++ ws1 ++ q1 ++ body ++ q2 ++ ws2 ++ "```"
    /\ nocase_eq tagw "release-note"
    /\ (s = [] \/ nocase_eq s "s")
    /\ blanks ws1 /\ opt_quote q1 /\ none_word body /\ opt_quote q2
    /\ blanks ws2.

(** [sub] occurs somewhere in [s]. *)
Definition has_substring (sub s : str) : Prop :=
  exists pre post, s = pre ++ sub ++ post.

(** An item as the parser stores it, and the item it makes of a bullet line. *)
Definition project_item (project_name item : str) : str :=
  "**" ++ project_name ++ "**: " ++ item.

Definition bullet_item (project_name line : str) : str :=
  project_item project_name (Py.strip (drop 1 (Py.strip line))).

(** The key under which the parser files the lines of a header. *)
Definition category_key (kind : str) : str :=
  default [] (Batch.find_category Batch.categories kind).

(** The groups of the renderer under the keys of the parser: what reading the
    notes back would give if every summary came back as it was grouped. *)
Definition regrouped (project_name : str) (releases : gmap str (list str))
    : gmap str (list str) :=
  list_to_map
    (omap (fun kind =>
             (fun l => (category_key kind, map (project_item project_name) l))
               <$> releases !! kind)
       SORTED_KINDS).

(** The lines of a rendered section. *)
Definition section_lines (kind : str) (items_list : list str) : list str :=
  kind :: match map (fun item => "- " ++ item) items_list with
          | [] => ["- " : str]
          | first :: others => ("- " ++ first) :: others
          end.

(** The groups that are rendered, in the order of [kinds]. *)
Definition present (releases : gmap str (list str)) (kinds : list str)
    : list (str * list str) :=
  omap (fun kind => (fun l => (kind, l)) <$> releases !! kind) kinds.

(** What the parser files for one rendered section. *)
Definition file_section (project_name : str) (result : gmap str (list str))
    (sec : str * list str) : gmap str (list str) :=
  <[category_key sec.1 :=
      default [] (result !! category_key sec.1)
      ++ map (bullet_item project_name) (tail (section_lines sec.1 sec.2))]>
    result.

(** The text of lines that each end in a line feed. *)
Definition terminated (lines : list str) : str :=
  concat (map (fun line => line ++ [LF]) lines).

Definition raises {A} (o : outcome A) : Prop := exists e, o = Raise e.

(** Some call that the run makes on the client raises: the listing of the
    tags or the lookup of the commit that [since] names (the range), the
    listing of the commits, or the fetch of one of the merge requests. *)
Definition retrieval_raises (client : Client) (project tag_name ref : str)
    (since : option str) : Prop :=
  raises (list_tags client project)
  \/ exists tags tag_exists since_at until_at,
       list_tags client project = Return tags /\ tags <> []
       /\ resolve_range client project tags tag_name since
          = (tag_exists, since_at, until_at)
       /\ ((exists s, given since = Some s /\ find_tag tags s = None
                      /\ raises (get_commit client project s))
           \/ raises (list_commits client project ref since_at until_at)
           \/ exists commits iid,
                list_commits client project ref since_at until_at
                = Return commits
                /\ iid ∈ mr_iids (skip_first since_at commits)
                /\ raises (get_merge_request client project iid)).

(** The tags at the head of the list that bear the target name, and the tags
    from the first other one on. *)
Fixpoint leading (target : str) (tags : list Tag) : list Tag :=
  match tags with
  | tag :: rest =>
      if bool_decide (t_name tag = target) then tag :: leading target rest
      else []
  | [] => []
  end.

Fixpoint trailing (target : str) (tags : list Tag) : list Tag :=
  match tags with
  | tag :: rest =>
      if bool_decide (t_name tag = target) then trailing target rest else tags
  | [] => []
  end.

(** A tag and a commit of the examples. *)
Definition tag_at (name : str) (t : datetime) : Tag :=
  {| t_name := name; t_created_at := t |}.

Definition merge_commit (title trailer : str) : Commit :=
  {| c_id := []; c_message := title ++ MARKER ++ trailer; c_created_at := 0%Z |}.

(** A client with one tag [v1] and one merge commit, whose fetches raise. *)
Definition failing_fetch_client : Client :=
  {| list_tags := fun _ => Return [tag_at "v1" 1%Z];
     get_commit := fun _ _ => Return None;
     list_commits := fun _ _ _ _ => Return [merge_commit "Merge" "g/p!42"];
     get_merge_request := fun _ _ => Raise (Exception "timeout") |}.

(** A client with one tag [v1] and one merge commit, whose merge request
    bears the label that keeps it out of the notes. *)
Definition labelled_client : Client :=
  {| list_tags := fun _ => Return [tag_at "v1" 1%Z];
     get_commit := fun _ _ => Return None;
     list_commits := fun _ _ _ _ => Return [merge_commit "Merge" "g/p!42"];
     get_merge_request := fun _ iid =>
       Return (Some {| mr_iid := iid; mr_title := "fix: a";
                       mr_description := []; mr_web_url := "u";
                       mr_labels := [LABEL_RELEASE_NOTE_NONE];
                       mr_username := "ann" |}) |}.

End Spec.

(** ** The vocabulary of the further properties *)
Module Props.
Import Generator.

(** The summaries of the items of one kind, in the order of the items. *)
Definition summaries_of (kind : str) (items : list str) : list str :=
  map snd (List.filter (fun ks => bool_decide (ks.1 = kind)) (map classify items)).

(** The section of a kind, if it has summaries. *)
Definition section_of (items : list str) (kind : str) : option str :=
  match summaries_of kind items with
  | [] => None
  | l => Some (section kind l)
  end.

(** What [generate_release_notes] puts after the title of a merge request:
    the link of its iid and its author. *)
Definition reference (mr : MergeRequest) : str :=
  " ([!" ++ Py.str_of_int (mr_iid mr) ++ "](" ++ mr_web_url mr ++ ")) @"
    ++ mr_username mr.

(* The invariant of the parser loop of walle/cli/batch.py: what is filed so
   far, and the category the loop is in. *)
Definition filed_well (p : str) (st : gmap str (list str) * option str) : Prop :=
  (forall k l, st.1 !! k = Some l ->
     k ∈ map snd Batch.categories /\ l <> []
     /\ Forall (fun x => exists item, x = Spec.project_item p item
                                      /\ Py.strip item = item) l)
  /\ (forall cat, st.2 = Some cat -> cat ∈ map snd Batch.categories).

End Props.

(** ** [walle/cli/batch.py]: merging the notes of several projects *)
Module Merge.

Definition category_headers : gmap str str :=
  {[ ("bug_fixes" : str) := ("**Bug Fixes:**" : str);
     ("new_features" : str) := ("_New Features:_" : str);
     ("changes" : str) := ("_Changes:_" : str);
     ("documentation" : str) := ("Documentation:" : str);
     ("other" : str) := ("Other:" : str) ]}.

Definition category_order : list str :=
  ["bug_fixes" : str; "new_features" : str; "changes" : str;
   "documentation" : str; "other" : str].

(** The inner loop: the items of each category of [notes] extend the merged
    list of that category. *)
Definition extend_all (merged notes : gmap str (list str))
    : gmap str (list str) :=
  map_fold
    (fun category items merged =>
       <[category := default [] (merged !! category) ++ items]> merged)
    merged notes.

(** The outer loop over the projects. *)
Definition merge_notes (all_project_notes : list (str * gmap str (list str)))
    : gmap str (list str) :=
  foldl (fun merged project_notes => extend_all merged project_notes.2) ∅
    all_project_notes.

(** What one category adds to [sections]: nothing when it is absent or
    empty, else its header, its items and an empty line. *)
Definition category_lines (merged : gmap str (list str)) (category : str)
    : list str :=
  match merged !! category with
  | Some (item :: items) =>
      (category_headers !!! category)
        :: map (fun item => "- " ++ item) (item :: items) ++ [[]]
  | _ => []
  end.

(** The title line, for a product name that is given and not empty. *)
Definition title_lines (product_name : option str) : list str :=
  match product_name with
  | Some (c :: name) => ["# " ++ (c :: name) ++ " Release Notes" ++ [LF]]
  | _ => []
  end.

Definition merge_categorized_notes
    (all_project_notes : list (str * gmap str (list str)))
    (product_name : option str) : str :=
  let merged := merge_notes all_project_notes in
  let sections :=
    title_lines product_name
    ++ concat (map (category_lines merged) category_order) in
  Py.join [LF] sections.

End Merge.

(** ** [walle/config/settings.py]: the host of the forge *)
Module Settings.

(** [v.startswith(prefixes)] for a tuple of prefixes. *)
Definition startswith_any (prefixes : list str) (v : str) : bool :=
  existsb (fun prefix => Py.startswith prefix v) prefixes.

Definition normalize_gitlab_host (v : str) : str :=
  if bool_decide (v <> [])
     && negb (startswith_any [("http://" : str); ("https://" : str)] v)
  then "https://" ++ v
  else v.

End Settings.

(** ** [walle/cli/release.py] and [walle/cli/changelog.py]: the commands *)
Module Cli.
Import Generator.

(** What a command prints and what it asks the forge and the file system to
    change, in the order in which it does so. Log records are left out. *)
Inductive event :=
| Echo (message : str)
| EchoErr (message : str)
| WriteFile (path content : str)
| CreateTag (project tag_name ref message : str)
| UpsertRelease (project tag_name description : str)
| CreateBranch (project branch_name ref : str)
| UpdateFile (project file_path content commit_message branch : str)
| CreateMergeRequest
    (project source_branch target_branch title description : str).

Definition changes_forge (ev : event) : bool :=
  match ev with
  | Echo _ | EchoErr _ | WriteFile _ _ => false
  | _ => true
  end.

Definition is_error (ev : event) : bool :=
  match ev with
  | EchoErr _ => true
  | _ => false
  end.

(** The operations of the commands beside those of the pipeline: the
    writing methods of the client, its [get_file], and
    [open(path, 'w')] followed by [write]. *)
Record Env := {
  create_tag : str -> str -> str -> str -> outcome bool;
  upsert_release : str -> str -> str -> outcome bool;
  get_file : str -> str -> str -> outcome (option str);
  create_branch : str -> str -> str -> outcome bool;
  update_file : str -> str -> str -> str -> str -> outcome bool;
  create_merge_request :
    str -> str -> str -> str -> str -> outcome (option MergeRequest);
  write_text : str -> str -> outcome unit
}.

(** Where a block of statements ends: at its last statement, at a [return]
    or at an exception. *)
Inductive status (A : Type) :=
| Continue (a : A)
| Returned (value : Z)
| Raised (e : exn).
Arguments Continue {A} a.
Arguments Returned {A} value.
Arguments Raised {A} e.

Definition cmd (A : Type) : Type := list event * status A.

#[global] Instance cmd_ret : MRet cmd := fun A a => ([], Continue a).

#[global] Instance cmd_bind : MBind cmd := fun A B f m =>
  match m with
  | (tr, Continue a) => let '(tr', s) := f a in (tr ++ tr', s)
  | (tr, Returned value) => (tr, Returned value)
  | (tr, Raised e) => (tr, Raised e)
  end.

Definition echo (message : str) : cmd unit := ([Echo message], Continue tt).

Definition echo_err (message : str) : cmd unit :=
  ([EchoErr message], Continue tt).

Definition return_ {A} (value : Z) : cmd A := ([], Returned value).

Definition of_outcome {A} (o : outcome A) : status A :=
  match o with
  | Return a => Continue a
  | Raise e => Raised e
  end.

(** A call that changes something, and a call that only reads. *)
Definition call {A} (ev : event) (o : outcome A) : cmd A := ([ev], of_outcome o).

Definition look {A} (o : outcome A) : cmd A := ([], of_outcome o).

Definition when (b : bool) (m : cmd unit) : cmd unit :=
  if b then m else mret tt.

Definition try_except {A} (m : cmd A) (handler : exn -> cmd A) : cmd A :=
  match m with
  | (tr, Raised e) => let '(tr', s) := handler e in (tr ++ tr', s)
  | _ => m
  end.

(** [str(e)] *)
Definition str_of_exn (e : exn) : str :=
  match e with Exception msg => msg end.

(** The [try] around the body of a command, whose last statement is a
    [return]. *)
Definition guarded (body : cmd Empty_set) : list event * Z :=
  match body with
  | (tr, Continue x) => match x with end
  | (tr, Returned value) => (tr, value)
  | (tr, Raised e) => (tr ++ [EchoErr ("Error: " ++ str_of_exn e)], 1%Z)
  end.

(** ["=" * 50] *)
Definition RULE : str := repeat "="%char 50.

(** [not s.strip()] *)
Definition blank (s : str) : bool := bool_decide (Py.strip s = []).

Definition NO_NOTES : str :=
  "No release notes generated (no merge requests found or all excluded)".

Definition release_document (tag release_notes : str) : str :=
  "# Release " ++ tag ++ [LF; LF] ++ release_notes.

Definition release_steps (env : Env) (notes : bool * str * option exn)
    (project ref tag : str) (dry_run markdown_only tag_only : bool)
    (output : option str) : cmd Empty_set :=
  let '(tag_exists, release_notes, error) := notes in
  match error with
  | Some error =>
      echo_err ("Error generating release notes: " ++ str_of_exn error) ;;
      return_ 1
  | None =>
      when (blank release_notes)
        (echo NO_NOTES ;; when (negb tag_only) (return_ 0)) ;;
      when markdown_only
        (match given output with
         | Some output =>
             try_except
               (call (WriteFile output (release_document tag release_notes))
                  (write_text env output (release_document tag release_notes)) ;;
                echo ("Release notes saved to: " ++ output))
               (fun e =>
                  echo_err ("Error writing to file " ++ output ++ ": "
                            ++ str_of_exn e) ;;
                  return_ 1)
         | None => echo ("# Release " ++ tag ++ [LF]) ;; echo release_notes
         end ;;
         return_ 0) ;;
      echo ("Generated release notes for " ++ tag ++ ":") ;;
      echo RULE ;; echo release_notes ;; echo RULE ;;
      when dry_run (echo "(Dry run - no changes made)" ;; return_ 0) ;;
      when (negb tag_exists)
        (success ← call (CreateTag project tag ref ("Release " ++ tag))
                     (create_tag env project tag ref ("Release " ++ tag));
         when (negb success)
           (echo_err ("Error creating tag: " ++ tag) ;; return_ 1) ;;
         echo ("Successfully created tag: " ++ tag)) ;;
      when tag_only
        (echo ("Tag-only mode: Only tag '" ++ tag
               ++ "' was created, no release notes uploaded") ;;
         return_ 0) ;;
      (if negb (blank release_notes)
       then
         success ← call (UpsertRelease project tag release_notes)
                     (upsert_release env project tag release_notes);
         when (negb success)
           (echo_err ("Error creating release for tag: " ++ tag) ;;
            return_ 1) ;;
         echo ("Successfully created release for tag: " ++ tag)
       else echo ("No release notes to upload for tag: " ++ tag)) ;;
      return_ 0
  end.

(** The command, once the client is made. *)
Definition release (as_completed : list future -> list future)
    (client : Client) (env : Env) (project ref tag : str) (since : option str)
    (dry_run markdown_only tag_only : bool) (output : option str)
    : list event * Z :=
  if markdown_only && tag_only
  then ([EchoErr
           "Error: --markdown-only and --tag-only cannot be used together"],
        1%Z)
  else
    guarded
      (release_steps env
         (get_release_notes_by_tag as_completed client project tag ref since)
         project ref tag dry_run markdown_only tag_only output).

Definition changelog_entry (tag release_notes : str) : str :=
  "## " ++ tag ++ [LF; LF] ++ release_notes ++ [LF; LF].

(** The new content of the file: the entry after the title line if the
    file has one, before everything else. *)
Definition insert_entry (changelog_entry current_content : str) : str :=
  match Py.split LF current_content with
  | first :: rest =>
      if Py.startswith "#" first
      then first ++ [LF; LF] ++ changelog_entry ++ Py.join [LF] rest
      else changelog_entry ++ current_content
  | [] => changelog_entry ++ current_content
  end.

Definition changelog_steps (env : Env) (notes : bool * str * option exn)
    (project ref tag file : str) (dry_run markdown_only : bool)
    (output : option str) : cmd Empty_set :=
  let '(tag_exists, release_notes, error) := notes in
  match error with
  | Some error =>
      echo_err ("Error generating release notes: " ++ str_of_exn error) ;;
      return_ 1
  | None =>
      when (blank release_notes) (echo NO_NOTES ;; return_ 0) ;;
      let changelog_entry := changelog_entry tag release_notes in
      when markdown_only
        (match given output with
         | Some output =>
             try_except
               (call (WriteFile output changelog_entry)
                  (write_text env output changelog_entry) ;;
                echo ("Changelog entry saved to: " ++ output))
               (fun e =>
                  echo_err ("Error writing to file " ++ output ++ ": "
                            ++ str_of_exn e) ;;
                  return_ 1)
         | None => echo changelog_entry
         end ;;
         return_ 0) ;;
      content ← look (get_file env project file ref);
      let current_content := default [] content in
      let new_content := insert_entry changelog_entry current_content in
      echo ("Changelog entry for " ++ tag ++ ":") ;;
      echo RULE ;; echo changelog_entry ;; echo RULE ;;
      when dry_run (echo "(Dry run - no changes made)" ;; return_ 0) ;;
      let branch_name := "changelog-" ++ tag in
      success ← call (CreateBranch project branch_name ref)
                  (create_branch env project branch_name ref);
      when (negb success)
        (echo_err ("Error creating branch: " ++ branch_name) ;; return_ 1) ;;
      success ← call (UpdateFile project file new_content
                        ("Update " ++ file ++ " for " ++ tag) branch_name)
                  (update_file env project file new_content
                     ("Update " ++ file ++ " for " ++ tag) branch_name);
      when (negb success)
        (echo_err ("Error updating " ++ file) ;; return_ 1) ;;
      mr_data ← call (CreateMergeRequest project branch_name ref
                        ("Update " ++ file ++ " for " ++ tag)
                        ("Automated changelog update for release " ++ tag))
                  (create_merge_request env project branch_name ref
                     ("Update " ++ file ++ " for " ++ tag)
                     ("Automated changelog update for release " ++ tag));
      match mr_data with
      | Some mr_data =>
          echo ("Successfully created merge request: " ++ mr_web_url mr_data)
      | None =>
          echo_err ("Error creating merge request, but changelog was updated in branch: "
                    ++ branch_name) ;;
          return_ 1
      end ;;
      echo ("Successfully updated changelog for tag: " ++ tag) ;;
      return_ 0
  end.

(** The command, once the client is made. *)
Definition changelog (as_completed : list future -> list future)
    (client : Client) (env : Env) (project ref tag : str) (since : option str)
    (file : str) (dry_run markdown_only : bool) (output : option str)
    : list event * Z :=
  guarded
    (changelog_steps env
       (get_release_notes_by_tag as_completed client project tag ref since)
       project ref tag file dry_run markdown_only output).

(** An environment in which every operation succeeds, on an empty file. *)
Definition willing_env : Env :=
  {| create_tag := fun _ _ _ _ => Return true;
     upsert_release := fun _ _ _ => Return true;
     get_file := fun _ _ _ => Return None;
     create_branch := fun _ _ _ => Return true;
     update_file := fun _ _ _ _ _ => Return true;
     create_merge_request := fun _ _ _ title description =>
       Return (Some {| mr_iid := 1%Z; mr_title := title;
                       mr_description := description; mr_web_url := "w";
                       mr_labels := []; mr_username := "bot" |});
     write_text := fun _ _ => Return tt |}.

(** A forge with the tags [v2] and [v1] and, after the commit of [v2], one
    merge commit, of merge request 7. *)
Definition sample_client : Client :=
  {| list_tags := fun _ => Return [Spec.tag_at "v2" 2%Z; Spec.tag_at "v1" 1%Z];
     get_commit := fun _ _ => Return None;
     list_commits := fun _ _ _ _ =>
       Return [Spec.merge_commit "Tagged" "g/p!6";
               Spec.merge_commit "Merge" "g/p!7"];
     get_merge_request := fun _ iid =>
       Return (Some {| mr_iid := iid; mr_title := "feat: search";
                       mr_description := []; mr_web_url := "u";
                       mr_labels := []; mr_username := "ann" |}) |}.

End Cli.

Import Re Generator Batch Spec Props Merge Settings Cli.

(** * The matcher and the patterns *)
Section Matcher.
Variables (ic : bool) (n : nat).

Lemma lit_sound l : forall s s',
  lit ic l s = Some s' -> exists m, s = m ++ s' /\ lit_eq ic l m.
Proof.
  induction l as [|c l IH]; intros s s' H; simpl in H.
  - injection H as ->. exists []. split; [done | constructor].
  - destruct s as [|x s]; [discriminate|].
    destruct (chr_eq ic x c) eqn:E; [|discriminate].
    destruct (IH _ _ H) as (m & -> & Hm).
    exists (x :: m). split; [reflexivity | by constructor].
Qed.

Lemma lit_complete l m s : lit_eq ic l m -> lit ic l (m ++ s) = Some s.
Proof.
  induction 1 as [|c x l m Hc _ IH]; simpl; [reflexivity|].
  by rewrite Hc.
Qed.

Lemma star_loop_sound body r k :
  (forall s cs k' res, body s cs k' = Some res ->
     exists m s' cs', s = m ++ s' /\ matches ic n r m s' cs cs'
                      /\ k' s' cs' = Some res) ->
  forall fuel s cs res, star_loop body fuel s cs k = Some res ->
    exists m s' cs', s = m ++ s' /\ matches ic n (Star r) m s' cs cs'
                     /\ k s' cs' = Some res.
Proof.
  intros Hbody. induction fuel as [|f IH]; intros s cs res H; simpl in H.
  - exists [], s, cs. repeat split; [constructor | done].
  - destruct (body s cs _) as [r0|] eqn:E.
    + injection H as ->. apply Hbody in E as (m1 & s1 & cs1 & -> & H1 & Hk).
      case_bool_decide as Hlen; [|discriminate].
      apply IH in Hk as (m2 & s2 & cs2 & -> & H2 & Hk).
      exists (m1 ++ m2), s2, cs2. rewrite <- app_assoc.
      repeat split; [|done].
      apply M_star_cons with cs1; [|done..].
      intros ->. simpl in Hlen. lia.
    + exists [], s, cs. repeat split; [constructor | done].
Qed.

Lemma run_sound r : forall s cs k res,
  run ic n r s cs k = Some res ->
  exists m s' cs', s = m ++ s' /\ matches ic n r m s' cs cs'
                   /\ k s' cs' = Some res.
Proof.
  induction r as [|l|p|r1 IH1 r2 IH2|r1 IH1 r2 IH2|r IH|g r IH| |];
    intros s cs k res H; simpl in H.
  - exists [], s, cs. repeat split; [constructor | done].
  - destruct (lit ic l s) as [s'|] eqn:E; [|discriminate].
    apply lit_sound in E as (m & -> & Hm).
    exists m, s', cs. repeat split; [by constructor | done].
  - destruct s as [|x s]; [discriminate|].
    destruct (p x) eqn:E; [|discriminate].
    exists [x], s, cs. repeat split; [by constructor | done].
  - apply IH1 in H as (m1 & s1 & cs1 & -> & H1 & H).
    apply IH2 in H as (m2 & s2 & cs2 & -> & H2 & H).
    exists (m1 ++ m2), s2, cs2. rewrite <- app_assoc.
    repeat split; [by econstructor | done].
  - destruct (run ic n r1 s cs k) as [r0|] eqn:E.
    + injection H as ->. apply IH1 in E as (m & s' & cs' & -> & H1 & H).
      exists m, s', cs'. repeat split; [by apply M_alt_l | done].
    + apply IH2 in H as (m & s' & cs' & -> & H1 & H).
      exists m, s', cs'. repeat split; [by apply M_alt_r | done].
  - by eapply star_loop_sound.
  - apply IH in H as (m & s' & cs' & -> & H1 & H).
    exists m, s', ((g, m) :: cs'). repeat split; [by constructor|].
    rewrite length_app in H.
    replace (length m + length s' - length s') with (length m) in H by lia.
    by rewrite take_app_length in H.
  - case_bool_decide; [|discriminate].
    exists [], s, cs. repeat split; [by constructor | done].
  - exists [], s, cs. repeat split; [|destruct s as [|x [|y s]]; try done;
      by case_bool_decide].
    constructor. destruct s as [|x [|y s]]; try discriminate; [by left|].
    case_bool_decide; [subst; by right | discriminate].
Qed.

Lemma star_loop_base body fuel s cs k :
  is_Some (k s cs) -> is_Some (star_loop body fuel s cs k).
Proof.
  intros Hk. destruct fuel as [|f]; simpl; [done|].
  by destruct (body s cs _).
Qed.

Lemma star_loop_step body fuel m1 rest cs cs1 k :
  m1 <> [] -> length (m1 ++ rest) <= fuel ->
  (forall k', is_Some (k' rest cs1) -> is_Some (body (m1 ++ rest) cs k')) ->
  (forall f, length rest <= f -> is_Some (star_loop body f rest cs1 k)) ->
  is_Some (star_loop body fuel (m1 ++ rest) cs k).
Proof.
  intros Hne Hfuel Hbody Hrest.
  assert (length rest < length (m1 ++ rest)) as Hlt.
  { rewrite length_app. destruct m1; [done | simpl; lia]. }
  destruct fuel as [|f]; [lia|]. simpl.
  match goal with |- is_Some (match ?x with _ => _ end) =>
    assert (is_Some x) as [r0 ->]; [|done] end.
  apply Hbody. rewrite bool_decide_true by done. apply Hrest. lia.
Qed.

Lemma run_complete r m s cs cs' :
  matches ic n r m s cs cs' ->
  (forall k, is_Some (k s cs') -> is_Some (run ic n r (m ++ s) cs k))
  /\ (forall r1 fuel k, r = Star r1 -> length (m ++ s) <= fuel ->
        is_Some (k s cs') ->
        is_Some (star_loop (run ic n r1) fuel (m ++ s) cs k)).
Proof.
  induction 1 as [s cs|l m s cs Hl|p x s cs Hp
    |r1 r2 m1 m2 s cs cs1 cs2 _ [IH1 _] _ [IH2 _]
    |r1 r2 m s cs cs' _ [IH _]|r1 r2 m s cs cs' _ [IH _]
    |r s cs|r m1 m2 s cs cs1 cs2 Hne _ [IH1 _] _ [IHs IHl]
    |g r m s cs cs' _ [IH _]|s cs Hn|s cs Hs];
    (split; [intros k Hk; simpl | intros r' fuel k Hr Hfuel Hk; try discriminate]).
  - done.
  - by rewrite lit_complete.
  - by rewrite Hp.
  - rewrite <- app_assoc. apply IH1. by apply IH2.
  - destruct (IH k Hk) as [r0 ->]. done.
  - destruct (run ic n r1 (m ++ s) cs k) eqn:E; [done|]. by apply IH.
  - by apply star_loop_base.
  - by apply star_loop_base.
  - rewrite <- app_assoc.
    apply star_loop_step with cs1; [done | done | done |].
    intros f Hf. by apply (IHl r f k).
  - injection Hr as <-. rewrite <- app_assoc in *.
    apply star_loop_step with cs1; [done | done | done |].
    intros f Hf. by apply (IHl r f k).
  - apply IH. rewrite length_app.
    replace (length m + length s - length s) with (length m) by lia.
    by rewrite take_app_length.
  - by rewrite bool_decide_true.
  - destruct Hs as [-> | ->]; [done|]. by rewrite bool_decide_true.
Qed.

End Matcher.

(** Reading a derivation of [matches] backwards, one constructor at a time. *)
Section Inversions.
Variables (ic : bool) (n : nat).
Implicit Types (m s : str) (cs : captures).

Lemma matches_eps m s cs cs' :
  matches ic n Eps m s cs cs' <-> m = [] /\ cs' = cs.
Proof.
  split; [inversion 1; by subst | intros [-> ->]; constructor].
Qed.

Lemma matches_lit l m s cs cs' :
  matches ic n (Lit l) m s cs cs' <-> lit_eq ic l m /\ cs' = cs.
Proof.
  split; [inversion 1; by subst | intros [? ->]; by constructor].
Qed.

Lemma matches_cls p m s cs cs' :
  matches ic n (Cls p) m s cs cs' <-> (exists x, m = [x] /\ p x = true) /\ cs' = cs.
Proof.
  split; [inversion 1; subst; eauto | intros [(x & -> & ?) ->]; by constructor].
Qed.

Lemma matches_seq r1 r2 m s cs cs2 :
  matches ic n (r1 +> r2) m s cs cs2 <->
  exists m1 m2 cs1, m = m1 ++ m2 /\ matches ic n r1 m1 (m2 ++ s) cs cs1
                    /\ matches ic n r2 m2 s cs1 cs2.
Proof.
  split.
  - inversion 1; subst. eauto 8.
  - intros (m1 & m2 & cs1 & -> & H1 & H2). by econstructor.
Qed.

Lemma matches_alt r1 r2 m s cs cs' :
  matches ic n (Alt r1 r2) m s cs cs' <->
  matches ic n r1 m s cs cs' \/ matches ic n r2 m s cs cs'.
Proof.
  split; [inversion 1; subst; auto|].
  intros [H | H]; [by apply M_alt_l | by apply M_alt_r].
Qed.

Lemma matches_opt r m s cs cs' :
  matches ic n (Opt r) m s cs cs' <->
  matches ic n r m s cs cs' \/ (m = [] /\ cs' = cs).
Proof. unfold Opt. by rewrite matches_alt, matches_eps. Qed.

Lemma matches_grp g r m s cs cs' :
  matches ic n (Grp g r) m s cs cs' <->
  exists cs1, matches ic n r m s cs cs1 /\ cs' = (g, m) :: cs1.
Proof.
  split; [inversion 1; subst; eauto | intros (cs1 & H & ->); by constructor].
Qed.

Lemma matches_bol m s cs cs' :
  matches ic n Bol m s cs cs' <-> m = [] /\ length s = n /\ cs' = cs.
Proof.
  split; [inversion 1; by subst | intros (-> & ? & ->); by constructor].
Qed.

Lemma matches_eol m s cs cs' :
  matches ic n Eol m s cs cs' <-> m = [] /\ (s = [] \/ s = [LF]) /\ cs' = cs.
Proof.
  split; [inversion 1; by subst | intros (-> & ? & ->); by constructor].
Qed.

Lemma matches_star_cls p m s cs cs' :
  matches ic n (Star (Cls p)) m s cs cs' <->
  Forall (fun x => p x = true) m /\ cs' = cs.
Proof.
  split.
  - intros H. remember (Star (Cls p)) as r eqn:Hr.
    induction H as [| | | | | |r s cs|r m1 m2 s cs cs1 cs2 Hne H1 _ H2 IH| | |];
      try discriminate.
    + done.
    + injection Hr as ->. apply matches_cls in H1 as [(x & -> & Hx) ->].
      destruct (IH eq_refl) as [Hm ->]. split; [by constructor | done].
  - intros [Hm ->]. revert s. induction Hm as [|x m Hx _ IH]; intros s.
    + constructor.
    + apply (M_star_cons ic n (Cls p) [x] m s cs cs cs); [done | | apply IH].
      by constructor.
Qed.

Lemma matches_plus_cls p m s cs cs' :
  matches ic n (Plus (Cls p)) m s cs cs' <->
  m <> [] /\ Forall (fun x => p x = true) m /\ cs' = cs.
Proof.
  unfold Plus. rewrite matches_seq. split.
  - intros (m1 & m2 & cs1 & -> & H1 & H2).
    apply matches_cls in H1 as [(x & -> & Hx) ->].
    apply matches_star_cls in H2 as [Hm ->].
    split; [done | split; [by constructor | done]].
  - intros (Hne & Hm & ->). destruct Hm as [|x m Hx Hm]; [done|].
    exists [x], m, cs. split; [done|]. split; [by apply matches_cls; eauto|].
    by apply matches_star_cls.
Qed.

End Inversions.

Lemma lit_eq_exact l m : lit_eq false l m <-> m = l.
Proof.
  unfold lit_eq. split.
  - induction 1 as [|c x l m Hc _ IH]; [done|]. simpl in Hc.
    apply bool_decide_eq_true in Hc. by subst.
  - intros ->. induction l; constructor; [|done]. by apply bool_decide_eq_true.
Qed.

Lemma lit_eq_nocase l m :
  lit_eq true l m <-> map Py.lower m = map Py.lower l.
Proof.
  unfold lit_eq. split.
  - induction 1 as [|c x l m Hc _ IH]; [done|]. simpl in Hc.
    apply bool_decide_eq_true in Hc. simpl. by f_equal.
  - revert m. induction l as [|c l IH]; intros [|x m] H; try discriminate.
    + constructor.
    + injection H as Hx Hm. constructor; [|by apply IH].
      by apply bool_decide_eq_true.
Qed.

(** [search] and [match] against [matches]. *)
Section Searching.
Variable p : pattern.

Lemma search_from_sound n : forall s cs,
  search_from p n s = Some cs ->
  exists pre s0, s = pre ++ s0
    /\ run (ignorecase p) n (expr p) s0 [] accept = Some cs.
Proof.
  induction s as [|x s IH]; intros cs H; simpl in H.
  - destruct (run _ _ _ [] _ _) eqn:E; [|discriminate].
    injection H as ->. by exists [], [].
  - destruct (run _ _ _ (x :: s) _ _) eqn:E.
    + injection H as ->. by exists [], (x :: s).
    + apply IH in H as (pre & s0 & -> & H). by exists (x :: pre), s0.
Qed.

Lemma search_from_complete n pre s0 :
  is_Some (run (ignorecase p) n (expr p) s0 [] accept) ->
  is_Some (search_from p n (pre ++ s0)).
Proof.
  intros [cs H]. induction pre as [|x pre IH]; simpl.
  - destruct s0; simpl; by rewrite H.
  - by destruct (run _ _ _ (x :: pre ++ s0) _ _).
Qed.

Lemma search_some s cs :
  search p s = Some cs ->
  exists pre m post, s = pre ++ m ++ post
    /\ matches (ignorecase p) (length s) (expr p) m post [] cs.
Proof.
  intros H. apply search_from_sound in H as (pre & s0 & -> & H).
  apply run_sound in H as (m & post & cs' & -> & H & Hk).
  injection Hk as ->. by exists pre, m, post.
Qed.

Lemma search_is_some s pre m post cs :
  s = pre ++ m ++ post ->
  matches (ignorecase p) (length s) (expr p) m post [] cs ->
  is_Some (search p s).
Proof.
  intros -> H. apply search_from_complete.
  by apply (run_complete _ _ _ _ _ _ _ H).
Qed.

Lemma rmatch_some s cs :
  rmatch p s = Some cs ->
  exists m post, s = m ++ post
    /\ matches (ignorecase p) (length s) (expr p) m post [] cs.
Proof.
  intros H. apply run_sound in H as (m & post & cs' & -> & H & Hk).
  injection Hk as ->. by exists m, post.
Qed.

Lemma rmatch_is_some s m post cs :
  s = m ++ post ->
  matches (ignorecase p) (length s) (expr p) m post [] cs ->
  is_Some (rmatch p s).
Proof.
  intros -> H. by apply (run_complete _ _ _ _ _ _ _ H).
Qed.

End Searching.


Lemma dot_Forall (s : str) : Forall (fun x => dot x = true) s <-> LF ∉ s.
Proof.
  rewrite Forall_forall. unfold dot. split.
  - intros H Hin. apply H in Hin. by rewrite bool_decide_true in Hin.
  - intros H x Hx. apply negb_true_iff, bool_decide_eq_false. by intros ->.
Qed.

Lemma mr_pattern_matches n m post cs :
  matches false n (expr mr_pattern) m post [] cs <->
  exists any ds,
    m = MARKER ++ any ++ "!" ++ ds
    /\ any <> [] /\ (LF ∉ any)
    /\ ds <> [] /\ Forall (fun c => Py.isdigit c = true) ds
    /\ (post = [] \/ post = [LF]) /\ cs = [(1, ds)].
Proof.
  unfold mr_pattern; simpl expr. split.
  - intros H.
    apply matches_seq in H as (m1 & m2 & cs1 & -> & H1 & H).
    apply matches_lit in H1 as [->%lit_eq_exact ->].
    apply matches_seq in H as (any & m3 & cs1 & -> & H1 & H).
    apply matches_plus_cls in H1 as (Hany & Hdot%dot_Forall & ->).
    apply matches_seq in H as (m1 & m4 & cs1 & -> & H1 & H).
    apply matches_lit in H1 as [->%lit_eq_exact ->].
    apply matches_seq in H as (ds & m5 & cs1 & -> & H1 & H).
    apply matches_grp in H1 as (cs2 & H1 & ->).
    apply matches_plus_cls in H1 as (Hds & Hdig & ->).
    apply matches_eol in H as (-> & Hpost & ->).
    exists any, ds. rewrite app_nil_r. done.
  - intros (any & ds & -> & Hany & Hdot & Hds & Hdig & Hpost & ->).
    apply matches_seq. exists MARKER, (any ++ "!" ++ ds), [].
    split; [done|]. split; [by apply matches_lit, conj; [apply lit_eq_exact|]|].
    apply matches_seq. exists any, ("!" ++ ds), [].
    split; [done|]. split; [by apply matches_plus_cls, conj; [|split; [apply dot_Forall|]]|].
    apply matches_seq. exists ("!" : str), ds, [].
    split; [done|]. split; [by apply matches_lit, conj; [apply lit_eq_exact|]|].
    apply matches_seq. exists ds, [], [(1, ds)].
    split; [by rewrite app_nil_r|]. split.
    + apply matches_grp. exists []. split; [|done]. by apply matches_plus_cls.
    + by apply matches_eol.
Qed.

(** The text after the last occurrence of a separator is determined. *)
Lemma unique_after_last {A} (c : A) (X Y X' Y' : list A) :
  c ∉ Y -> c ∉ Y' -> X ++ c :: Y = X' ++ c :: Y' -> X = X' /\ Y = Y'.
Proof.
  intros HY HY'. revert X'.
  induction X as [|x X IH]; intros [|x' X'] H; simpl in H.
  - by injection H.
  - injection H as <- ->. exfalso. apply HY, elem_of_app. right. by left.
  - injection H as -> <-. exfalso. apply HY', elem_of_app. right. by left.
  - injection H as -> H. by destruct (IH _ H) as [-> ->].
Qed.

Lemma digits_notin (c : ascii) (ds : str) :
  Py.isdigit c = false -> Forall (fun c => Py.isdigit c = true) ds -> c ∉ ds.
Proof.
  intros Hc Hds Hin. rewrite Forall_forall in Hds. apply Hds in Hin. congruence.
Qed.

Lemma digits_tail (ds tl ds' tl' : str) :
  Forall (fun c => Py.isdigit c = true) ds ->
  Forall (fun c => Py.isdigit c = true) ds' ->
  tl = [] \/ tl = [LF] -> tl' = [] \/ tl' = [LF] ->
  ds ++ tl = ds' ++ tl' -> ds = ds'.
Proof.
  intros Hds Hds' [-> | ->] [-> | ->] H.
  - by rewrite !app_nil_r in H.
  - exfalso. apply (digits_notin LF ds); [done.. |]. rewrite app_nil_r in H.
    subst. apply elem_of_app. right. by left.
  - exfalso. apply (digits_notin LF ds'); [done.. |]. rewrite app_nil_r in H.
    subst. apply elem_of_app. right. by left.
  - by apply app_inv_tail in H.
Qed.

Lemma has_trailer_unique msg ds ds' :
  has_trailer msg ds -> has_trailer msg ds' -> ds = ds'.
Proof.
  intros (pre & any & tl & -> & _ & _ & _ & Hds & Htl)
         (pre' & any' & tl' & H & _ & _ & _ & Hds' & Htl').
  assert (forall d t, Forall (fun c => Py.isdigit c = true) d ->
            t = [] \/ t = [LF] -> "!"%char ∉ d ++ t) as Hbang.
  { intros d t Hd Ht [Hin | Hin]%elem_of_app.
    - revert Hin. by apply digits_notin.
    - destruct Ht as [-> | ->]; [by apply elem_of_nil in Hin|].
      by apply list_elem_of_singleton in Hin. }
  change (("!" : str) ++ ds ++ tl) with ("!"%char :: ds ++ tl) in H.
  change (("!" : str) ++ ds' ++ tl') with ("!"%char :: ds' ++ tl') in H.
  rewrite !(app_assoc _ _ (_ :: _)) in H.
  destruct (unique_after_last _ _ _ _ _ (Hbang _ _ Hds Htl) (Hbang _ _ Hds' Htl') H)
    as [_ Heq].
  exact (digits_tail _ _ _ _ Hds Hds' Htl Htl' Heq).
Qed.

Lemma mr_search_inv msg cs :
  search mr_pattern msg = Some cs -> has_trailer msg (group cs 1).
Proof.
  intros (pre & m & post & -> & H)%search_some.
  apply mr_pattern_matches in H
    as (any & ds & -> & Hany & Hdot & Hds & Hdig & Hpost & ->).
  exists pre, any, post. by rewrite <- !app_assoc.
Qed.

Lemma mr_search msg ds :
  has_trailer msg ds ->
  exists cs, search mr_pattern msg = Some cs /\ group cs 1 = ds.
Proof.
  intros Ht. pose proof Ht as (pre & any & tl & Hmsg & Hany & Hdot & Hds & Hdig & Htl).
  destruct (search_is_some mr_pattern msg pre (MARKER ++ any ++ "!" ++ ds) tl
              [(1, ds)]) as [cs Hcs].
  { by rewrite Hmsg, <- !app_assoc. }
  { apply mr_pattern_matches. by exists any, ds. }
  exists cs. split; [done|].
  apply mr_search_inv in Hcs. by eapply has_trailer_unique.
Qed.

Lemma int_acc_nonneg (s : str) : forall acc : Z,
  (0 <= acc)%Z -> Forall (fun c => Py.isdigit c = true) s ->
  (0 <= foldl (fun acc c => 10 * acc + Py.digit_value c) acc s)%Z.
Proof.
  induction s as [|c s IH]; intros acc Hacc Hs; simpl; [done|].
  apply Forall_cons in Hs as [Hc Hs]. apply IH; [|done].
  unfold Py.isdigit in Hc. apply andb_true_iff in Hc as [H1%Nat.leb_le _].
  unfold Py.digit_value. lia.
Qed.

Lemma int_Some (s : str) n :
  Py.int s = Some n ->
  s <> [] /\ Forall (fun c => Py.isdigit c = true) s /\ (0 <= n)%Z.
Proof.
  unfold Py.int. intros H.
  destruct (bool_decide (s ≠ []) && forallb Py.isdigit s
            && bool_decide (length s <= Py.INT_MAX_STR_DIGITS)) eqn:E;
    [|discriminate].
  apply andb_true_iff in E as [E _].
  apply andb_true_iff in E as [Hne%bool_decide_eq_true Hd].
  rewrite forallb_forall in Hd. assert (Forall (fun c => Py.isdigit c = true) s).
  { apply Forall_forall. intros x Hx%list_elem_of_In. by apply Hd. }
  injection H as <-. repeat split; [done.. |]. by apply int_acc_nonneg.
Qed.

Lemma int_digits (s : str) (n : Z) :
  s <> [] -> Forall (fun c => Py.isdigit c = true) s ->
  Py.int s = Some n <-> length s <= Py.INT_MAX_STR_DIGITS /\ decimal s = n.
Proof.
  intros Hne Hd. unfold Py.int, decimal.
  rewrite (bool_decide_true (s ≠ [])) by done.
  assert (forallb Py.isdigit s = true) as ->.
  { apply forallb_forall. intros x Hx%list_elem_of_In.
    by apply (proj1 (Forall_forall _ _) Hd). }
  cbn [andb]. case_bool_decide as Hlen.
  - split; [by intros [= <-] | by intros [_ <-]].
  - split; [done | by intros [? _]].
Qed.

(** * Merge-request numbers of commit messages *)

Lemma mr_num_of_trailer msg ds n :
  has_trailer msg ds -> Py.int ds = Some n ->
  mr_num_for_commit_from_message msg = n.
Proof.
  intros (cs & Hcs & Hg)%mr_search Hint.
  unfold mr_num_for_commit_from_message. by rewrite Hcs, Hg, Hint.
Qed.

Lemma mr_num_inv msg :
  mr_num_for_commit_from_message msg <> 0%Z ->
  exists ds, has_trailer msg ds
    /\ Py.int ds = Some (mr_num_for_commit_from_message msg).
Proof.
  unfold mr_num_for_commit_from_message.
  destruct (search mr_pattern msg) as [cs|] eqn:Hcs; [|done].
  destruct (Py.int (group cs 1)) as [n|] eqn:Hint; [|done].
  intros _. exists (group cs 1). split; [by apply mr_search_inv | done].
Qed.

Lemma mr_num_nonneg msg : (0 <= mr_num_for_commit_from_message msg)%Z.
Proof.
  unfold mr_num_for_commit_from_message.
  destruct (search mr_pattern msg) as [cs|]; [|done].
  destruct (Py.int (group cs 1)) as [n|] eqn:Hint; [|done].
  by apply int_Some in Hint as (_ & _ & ?).
Qed.

Lemma mr_num_bang_zero pre :
  mr_num_for_commit_from_message (pre ++ "!0") = 0%Z.
Proof.
  destruct (decide (mr_num_for_commit_from_message (pre ++ "!0") = 0%Z))
    as [|Hne]; [done|].
  apply mr_num_inv in Hne as (ds & (pre' & any & tl & H & _ & _ & _ & Hds & Htl) & Hint).
  assert (ds = ("0" : str)) as ->.
  2: { assert (Py.int ("0" : str) = Some 0%Z) as E by done.
       rewrite E in Hint. by injection Hint. }
  change (pre ++ "!0") with (pre ++ "!"%char :: ("0" : str) ++ []) in H.
  change (("!" : str) ++ ds ++ tl) with ("!"%char :: ds ++ tl) in H.
  rewrite !(app_assoc _ _ (_ :: _)) in H.
  assert (forall d t : str, Forall (fun c => Py.isdigit c = true) d ->
            t = [] \/ t = [LF] -> "!"%char ∉ d ++ t) as Hbang.
  { intros d t Hd Ht [Hin | Hin]%elem_of_app.
    - revert Hin. by apply digits_notin.
    - destruct Ht as [-> | ->]; [by apply elem_of_nil in Hin|].
      by apply list_elem_of_singleton in Hin. }
  assert (Forall (fun c => Py.isdigit c = true) ("0" : str)) as H0.
  { by repeat constructor. }
  destruct (unique_after_last _ _ _ _ _
              (Hbang _ _ H0 (or_introl eq_refl)) (Hbang _ _ Hds Htl) H) as [_ Heq].
  symmetry. exact (digits_tail _ _ _ _ H0 Hds (or_introl eq_refl) Htl Heq).
Qed.

Lemma mr_num_of_long_trailer msg ds :
  has_trailer msg ds -> Py.INT_MAX_STR_DIGITS < length ds ->
  mr_num_for_commit_from_message msg = 0%Z.
Proof.
  intros Ht Hlen. pose proof Ht as (_ & _ & _ & _ & _ & _ & Hne & Hds & _).
  apply mr_search in Ht as (cs & Hcs & Hg).
  unfold mr_num_for_commit_from_message. rewrite Hcs, Hg.
  destruct (Py.int ds) as [n|] eqn:Hint; [|done].
  apply int_digits in Hint as [Hle _]; [|done..].
  exfalso. revert Hle Hlen. apply Nat.le_ngt.
Qed.

(** C3, as amended: the extraction yields a positive iid [n] exactly when the
    message ends in a trailer (the marker, a non-empty text without line
    feeds, an exclamation mark and digits, optionally followed by one final
    line feed) whose digits are at most 4300, the limit of [int], and denote
    [n]; a message with no such trailer of positive value yields zero, and so
    does a trailer of more digits than the limit; and every message ending in
    the marker and [foo!42] yields 42, whatever precedes it. *)
Theorem mr_num_trailer_spec :
  (forall msg n, (0 < n)%Z ->
     mr_num_for_commit_from_message msg = n <->
     exists ds, has_trailer msg ds
                /\ length ds <= Py.INT_MAX_STR_DIGITS /\ decimal ds = n)
  /\ (forall msg,
        ~ (exists ds, has_trailer msg ds
                      /\ length ds <= Py.INT_MAX_STR_DIGITS
                      /\ (0 < decimal ds)%Z) ->
        mr_num_for_commit_from_message msg = 0%Z)
  /\ (forall msg ds,
        has_trailer msg ds -> Py.INT_MAX_STR_DIGITS < length ds ->
        mr_num_for_commit_from_message msg = 0%Z)
  /\ (forall pre,
        mr_num_for_commit_from_message (pre ++ MARKER ++ "foo!42") = 42%Z).
Proof.
  assert (forall msg, mr_num_for_commit_from_message msg <> 0%Z ->
            exists ds, has_trailer msg ds
                       /\ length ds <= Py.INT_MAX_STR_DIGITS
                       /\ decimal ds = mr_num_for_commit_from_message msg)
    as Hinv.
  { intros msg Hne. destruct (mr_num_inv msg Hne) as (ds & Ht & Hint).
    pose proof Ht as (_ & _ & _ & _ & _ & _ & Hds & Hdig & _).
    apply int_digits in Hint as [Hlen Hdec]; [|done..]. by exists ds. }
  split; [|split; [|split]].
  - intros msg n Hn. split.
    + intros H. destruct (Hinv msg) as (ds & Ht & Hlen & Hdec); [lia|].
      exists ds. by rewrite <- H.
    + intros (ds & Ht & Hlen & Hdec).
      pose proof Ht as (_ & _ & _ & _ & _ & _ & Hds & Hdig & _).
      apply mr_num_of_trailer with ds; [done|]. by apply int_digits.
  - intros msg Hno.
    destruct (decide (mr_num_for_commit_from_message msg = 0%Z)) as [|Hne]; [done|].
    exfalso. apply Hno. pose proof (mr_num_nonneg msg).
    destruct (Hinv _ Hne) as (ds & Ht & Hlen & Hdec).
    exists ds. repeat split; [done..|lia].
  - exact mr_num_of_long_trailer.
  - intros pre. apply mr_num_of_trailer with ("42" : str); [|done].
    exists pre, ("foo" : str), []. repeat split; try done.
    + by apply (bool_decide_unpack _).
    + by repeat constructor.
    + by left.
Qed.

Lemma mr_num_trailer_spec_witness :
  mr_num_for_commit_from_message (MARKER ++ "foo!42") = 42%Z <->
  exists ds, has_trailer (MARKER ++ "foo!42") ds
             /\ length ds <= Py.INT_MAX_STR_DIGITS /\ decimal ds = 42%Z.
Proof. apply (proj1 mr_num_trailer_spec). lia. Defined.

(** C3, as stated, fails: a message whose trailer is followed by one line
    feed yields 42 although it does not end in the digits. *)
Lemma mr_num_trailing_line_feed :
  mr_num_for_commit_from_message (MARKER ++ "foo!42" ++ [LF]) = 42%Z
  /\ ~ (exists ds, ends_with_trailer (MARKER ++ "foo!42" ++ [LF]) ds).
Proof.
  split; [by vm_compute|].
  intros (ds & pre & any & H & Hne & Hds).
  destruct ds as [|d ds _] using rev_ind; [done|].
  apply Forall_app in Hds as [_ Hd]. apply Forall_inv in Hd.
  change (MARKER ++ "foo!42" ++ [LF]) with ((MARKER ++ "foo!42") ++ [LF]) in H.
  rewrite !app_assoc in H. apply app_inj_tail in H as [_ <-]. done.
Qed.

Lemma mr_iids_app l1 l2 : mr_iids (l1 ++ l2) = mr_iids l1 ++ mr_iids l2.
Proof. unfold mr_iids. by rewrite map_app, List.filter_app. Qed.

Lemma mr_iids_skip c l1 l2 :
  mr_num_for_commit_from_message (c_message c) = 0%Z ->
  mr_iids (l1 ++ c :: l2) = mr_iids (l1 ++ l2).
Proof.
  intros Hc. rewrite !mr_iids_app. f_equal.
  unfold mr_iids. simpl. by rewrite Hc.
Qed.

Lemma mr_from_commits_iids ac commits client project :
  mr_from_commits ac commits client project =
  match mr_iids commits with
  | [] => []
  | iids => omap collect (ac (map (submit client project) iids))
  end.
Proof. by destruct commits. Qed.

Lemma mr_from_commits_ext ac commits client client' project :
  (forall iid, (0 < iid)%Z ->
     get_merge_request client project iid
     = get_merge_request client' project iid) ->
  mr_from_commits ac commits client project
  = mr_from_commits ac commits client' project.
Proof.
  intros Hsame. rewrite !mr_from_commits_iids.
  assert (map (submit client project) (mr_iids commits)
          = map (submit client' project) (mr_iids commits)) as Heq.
  { apply map_ext_in. intros iid Hin. unfold submit. f_equal.
    apply Hsame. unfold mr_iids in Hin.
    apply List.filter_In in Hin as [_ Hpos]. by apply Z.ltb_lt. }
  destruct (mr_iids commits) as [|iid iids]; [done|]. by rewrite Heq.
Qed.

(** C10: the extraction is a total function into the non-negative integers;
    the fetches that the resolver hands to the pool are those of the
    extracted iids that are strictly positive, one per commit that has one,
    in the order of the commits, so that what the forge would answer for an
    iid that is not positive never bears on the result; and a commit whose
    message ends in [!0], or whose trailer digits denote zero, adds nothing
    to the iids fetched nor to the merge requests found. *)
Theorem mr_resolver_skips_zero :
  (forall msg, (0 <= mr_num_for_commit_from_message msg)%Z)
  /\ (forall commits iid,
        iid ∈ mr_iids commits <->
        (0 < iid)%Z /\ exists c, c ∈ commits
                         /\ mr_num_for_commit_from_message (c_message c) = iid)
  /\ (forall c,
        (exists pre, c_message c = pre ++ "!0")
        \/ (exists ds, has_trailer (c_message c) ds /\ Py.int ds = Some 0%Z) ->
        mr_num_for_commit_from_message (c_message c) = 0%Z
        /\ forall ac client project l1 l2,
             mr_iids (l1 ++ c :: l2) = mr_iids (l1 ++ l2)
             /\ mr_from_commits ac (l1 ++ c :: l2) client project
                = mr_from_commits ac (l1 ++ l2) client project)
  /\ (forall ac commits client project,
        mr_from_commits ac commits client project
        = match List.filter (fun iid => 0 <? iid)%Z
                  (map (fun c => mr_num_for_commit_from_message (c_message c))
                     commits) with
          | [] => []
          | iids =>
              omap collect
                (ac (map (fun iid => (iid, get_merge_request client project iid))
                       iids))
          end)
  /\ (forall ac commits client client' project,
        (forall iid, (0 < iid)%Z ->
           get_merge_request client project iid
           = get_merge_request client' project iid) ->
        mr_from_commits ac commits client project
        = mr_from_commits ac commits client' project).
Proof.
  split; [exact mr_num_nonneg | split; [|split; [|split]]].
  - intros commits iid. unfold mr_iids.
    rewrite list_elem_of_In, List.filter_In, <- list_elem_of_In, Z.ltb_lt.
    change (iid ∈ map ?f commits) with (iid ∈ f <$> commits).
    rewrite list_elem_of_fmap. split.
    + intros [(c & -> & Hc) Hpos]. eauto.
    + intros [Hpos (c & Hc & <-)]. eauto.
  - intros c Hc.
    assert (mr_num_for_commit_from_message (c_message c) = 0%Z) as H0.
    { destruct Hc as [[pre ->] | (ds & Ht & Hint)].
      - apply mr_num_bang_zero.
      - by eapply mr_num_of_trailer. }
    split; [done|]. intros ac client project l1 l2.
    rewrite !mr_from_commits_iids. by rewrite mr_iids_skip.
  - intros ac commits client project. apply mr_from_commits_iids.
  - intros ac commits client client' project. apply mr_from_commits_ext.
Qed.

Lemma mr_resolver_skips_zero_witness :
  let c := merge_commit "Merge" "g/p!0" in
  mr_num_for_commit_from_message (c_message c) = 0%Z
  /\ forall ac client project l1 l2,
       mr_iids (l1 ++ c :: l2) = mr_iids (l1 ++ l2)
       /\ mr_from_commits ac (l1 ++ c :: l2) client project
          = mr_from_commits ac (l1 ++ l2) client project.
Proof.
  intros c. apply (proj1 (proj2 (proj2 mr_resolver_skips_zero)) c).
  right. exists ("0" : str). split; [|reflexivity].
  exists ("Merge" : str), ("g/p" : str), []. repeat split; try done.
  - by apply (bool_decide_unpack _).
  - by repeat constructor.
  - by left.
Defined.

(** * The range of a tag and the pipeline *)

Lemma auto_detect_spec (target : str) (tags : list Tag) :
  forall tag_exists until_at,
    auto_detect tags target tag_exists until_at
    = (match leading target tags with [] => tag_exists | _ => true end,
       t_created_at <$> head (trailing target tags),
       match last (leading target tags) with
       | Some tag => Some (t_created_at tag)
       | None => until_at
       end).
Proof.
  induction tags as [|tag rest IH]; intros tag_exists until_at; [done|].
  simpl. case_bool_decide; [|done]. rewrite IH, last_cons.
  destruct (last (leading target rest)); by destruct (leading target rest).
Qed.

(** C1: without a [since], the scan looks only at the tags at the head of the
    list: it stops at the first tag that does not bear the target name.  It
    reports [tag_exists] when the head of the list bears that name, takes
    [until_at] from the last tag of that leading run and [since_at] from the
    first tag after it.  So on [v3@t3, v2@t2, v1@t1] and the target [v2] it
    reports that the tag does not exist, leaves [until_at] unset and sets
    [since_at] to [t3], and the same for the target [v1]; only the target
    [v3] gets the range of its neighbour. *)
Theorem auto_detect_stops_before_target :
  (forall client project tags target,
     resolve_range client project tags target None
     = (bool_decide (leading target tags <> []),
        t_created_at <$> head (trailing target tags),
        t_created_at <$> last (leading target tags)))
  /\ (forall client project (t1 t2 t3 : datetime),
        let tags := [tag_at "v3" t3; tag_at "v2" t2; tag_at "v1" t1] in
        resolve_range client project tags "v2" None = (false, Some t3, None)
        /\ resolve_range client project tags "v1" None = (false, Some t3, None)
        /\ resolve_range client project tags "v3" None = (true, Some t2, Some t3)).
Proof.
  split; [|intros; by vm_compute].
  intros client project tags target. unfold resolve_range. simpl.
  rewrite auto_detect_spec.
  destruct (leading target tags) as [|tag run] eqn:E; [done|].
  by destruct (last (tag :: run)).
Qed.

(** C9: when the tag list and the commit listing are non-empty, the merge
    requests are resolved from the listing without its first commit if the
    range has a [since_at], and from the whole listing if it has none. *)
Theorem boundary_commit_dropped :
  forall ac client project tag_name ref since tags tag_exists since_at until_at c cs,
    list_tags client project = Return tags -> tags <> [] ->
    resolve_range client project tags tag_name since
      = (tag_exists, since_at, until_at) ->
    list_commits client project ref since_at until_at = Return (c :: cs) ->
    get_release_notes_by_tag ac client project tag_name ref since
    = (tag_exists,
       generate_release_notes
         (mr_from_commits ac
            (match since_at with Some _ => cs | None => c :: cs end)
            client project)
         (Some condition),
       None).
Proof.
  intros ac client project tag_name ref since tags te sa ua c cs Htags Hne Hr Hc.
  unfold get_release_notes_by_tag. rewrite Htags.
  destruct tags as [|t tags]; [done|]. rewrite Hr, Hc.
  by destruct sa.
Qed.

Lemma boundary_commit_dropped_witness :
  get_release_notes_by_tag id failing_fetch_client "p" "v0" "main" None
  = (false,
     generate_release_notes (mr_from_commits id [] failing_fetch_client "p")
       (Some condition),
     None).
Proof.
  apply (boundary_commit_dropped id failing_fetch_client "p" "v0" "main" None
           [tag_at "v1" 1%Z] false (Some 1%Z) None
           (merge_commit "Merge" "g/p!42") []).
  - reflexivity.
  - discriminate.
  - reflexivity.
  - reflexivity.
Defined.

Lemma all_filtered_out (mrs : list MergeRequest) :
  Forall (fun mr => condition mr = false) mrs ->
  generate_release_notes mrs (Some condition) = [].
Proof.
  intros Hmrs.
  change (generate_release_notes mrs (Some condition))
    with (join_notes (map generate_title (List.filter condition mrs))).
  assert (List.filter condition mrs = []) as ->; [|done].
  induction Hmrs as [|mr mrs Hmr _ IH]; [done|]. simpl. by rewrite Hmr.
Qed.

(** What the pipeline returns once the tags and the commits are listed. *)
Lemma pipeline_listed ac client project tag_name ref since tags te sa ua commits :
  list_tags client project = Return tags -> tags <> [] ->
  resolve_range client project tags tag_name since = (te, sa, ua) ->
  list_commits client project ref sa ua = Return commits ->
  get_release_notes_by_tag ac client project tag_name ref since
  = (te,
     generate_release_notes
       (mr_from_commits ac (skip_first sa commits) client project)
       (Some condition),
     None).
Proof.
  intros Htags Hne Hr Hc. unfold get_release_notes_by_tag. rewrite Htags.
  destruct tags as [|t tags]; [done|]. rewrite Hr, Hc.
  by destruct commits.
Qed.

(** C7, as amended: the pipeline returns an error exactly when listing the
    tags raises, the tag list is empty, or listing the commits of the
    resolved range raises; the result is then [(False, empty, error)].  An
    empty commit listing gives [(tag_exists, empty, None)].  For any listing
    of commits the pipeline returns the [tag_exists] of the range, the notes
    of the merge requests resolved from the listing, and no error; when these
    merge requests are all filtered out, it returns
    [(tag_exists, empty, None)].  (An exception of the lookup of [since] or
    of the fetch of a merge request is caught where it is raised and is not
    returned.) *)
Theorem pipeline_error_discipline :
  forall ac client project tag_name ref since tag_exists notes err,
    get_release_notes_by_tag ac client project tag_name ref since
      = (tag_exists, notes, err) ->
    (is_Some err <->
       raises (list_tags client project)
       \/ list_tags client project = Return []
       \/ exists tags te since_at until_at,
            list_tags client project = Return tags /\ tags <> []
            /\ resolve_range client project tags tag_name since
               = (te, since_at, until_at)
            /\ raises (list_commits client project ref since_at until_at))
    /\ (is_Some err -> tag_exists = false /\ notes = [])
    /\ (forall tags te since_at until_at,
          list_tags client project = Return tags -> tags <> [] ->
          resolve_range client project tags tag_name since
            = (te, since_at, until_at) ->
          list_commits client project ref since_at until_at = Return [] ->
          (tag_exists, notes, err) = (te, [], None))
    /\ (forall mrs, Forall (fun mr => condition mr = false) mrs ->
          generate_release_notes mrs (Some condition) = [])
    /\ (forall tags te since_at until_at commits,
          list_tags client project = Return tags -> tags <> [] ->
          resolve_range client project tags tag_name since
            = (te, since_at, until_at) ->
          list_commits client project ref since_at until_at = Return commits ->
          let mrs := mr_from_commits ac (skip_first since_at commits)
                       client project in
          (tag_exists, notes, err)
          = (te, generate_release_notes mrs (Some condition), None)
          /\ (Forall (fun mr => condition mr = false) mrs ->
              (tag_exists, notes, err) = (te, [], None))).
Proof.
  intros ac client project tag_name ref since tag_exists notes err Hrun.
  assert (forall tags te since_at until_at commits,
            list_tags client project = Return tags -> tags <> [] ->
            resolve_range client project tags tag_name since
              = (te, since_at, until_at) ->
            list_commits client project ref since_at until_at = Return commits ->
            let mrs := mr_from_commits ac (skip_first since_at commits)
                         client project in
            (tag_exists, notes, err)
            = (te, generate_release_notes mrs (Some condition), None)
            /\ (Forall (fun mr => condition mr = false) mrs ->
                (tag_exists, notes, err) = (te, [], None))) as Hlisted.
  { intros tags te sa ua commits Htags Hne Hr Hc mrs.
    rewrite <- Hrun.
    rewrite (pipeline_listed _ _ _ _ _ _ _ _ _ _ _ Htags Hne Hr Hc).
    split; [done|]. intros Hall. by rewrite all_filtered_out. }
  revert Hrun. unfold get_release_notes_by_tag.
  pose proof all_filtered_out as Hall.
  destruct (list_tags client project) as [tags|e] eqn:Htags.
  2: { intros [= ? ? ?]; subst.
       split; [|split; [|split; [|split]]];
         [|by intros _|by intros ? ? ? ? [=]|exact Hall|exact Hlisted].
       split; [|done]. intros _. left. by exists e. }
  destruct tags as [|t tags].
  { intros [= ? ? ?]; subst.
    split; [|split; [|split; [|split]]];
      [|by intros _|by intros ? ? ? ? [=]|exact Hall|exact Hlisted].
    split; [|done]. intros _. by right; left. }
  destruct (resolve_range client project (t :: tags) tag_name since)
    as [[te sa] ua] eqn:Hr.
  destruct (list_commits client project ref sa ua) as [commits|e] eqn:Hc.
  2: { intros [= ? ? ?]; subst.
       split; [|split; [|split; [|split]]];
         [|by intros _| |exact Hall|exact Hlisted].
       - split; [|done]. intros _. right; right. exists (t :: tags), te, sa, ua.
         repeat split; [done..|]. by exists e.
       - intros tags' te' sa' ua' [= <-] _ Hr'. rewrite Hr in Hr'.
         injection Hr' as <- <- <-. by rewrite Hc. }
  assert (~ (raises (Return (t :: tags))
       \/ Return (t :: tags) = Return []
       \/ exists tags' te' sa' ua',
            Return (t :: tags) = Return tags' /\ tags' <> []
            /\ resolve_range client project tags' tag_name since = (te', sa', ua')
            /\ raises (list_commits client project ref sa' ua'))) as Hno.
  { intros [[e He] | [He | (tags' & te' & sa' & ua' & [= <-] & _ & Hr' & [e He])]];
      try discriminate.
    rewrite Hr in Hr'. injection Hr' as <- <- <-. by rewrite Hc in He. }
  destruct commits as [|c cs]; intros [= ? ? ?]; subst;
    (split; [|split; [|split; [|split]]];
       [|by intros [? [=]]| |exact Hall|exact Hlisted]).
  - split; [by intros [? [=]] | by intros ?%Hno].
  - intros tags' te' sa' ua' [= <-] _ Hr'. rewrite Hr in Hr'.
    by injection Hr' as <- <- <-.
  - split; [by intros [? [=]] | by intros ?%Hno].
  - intros tags' te' sa' ua' [= <-] _ Hr'. rewrite Hr in Hr'.
    injection Hr' as <- <- <-. by rewrite Hc.
Qed.

Lemma pipeline_error_discipline_witness :
  (is_Some (@None exn) <->
     raises (list_tags labelled_client "p")
     \/ list_tags labelled_client "p" = Return []
     \/ exists tags te since_at until_at,
          list_tags labelled_client "p" = Return tags /\ tags <> []
          /\ resolve_range labelled_client "p" tags "v1" None
             = (te, since_at, until_at)
          /\ raises (list_commits labelled_client "p" "main" since_at until_at))
  /\ (is_Some (@None exn) -> true = false /\ ([] : str) = [])
  /\ get_release_notes_by_tag id labelled_client "p" "v1" "main" None
     = (true, [], None).
Proof.
  assert (get_release_notes_by_tag id labelled_client "p" "v1" "main" None
          = (true, [], None)) as Hrun by (by vm_compute).
  pose proof (pipeline_error_discipline id labelled_client "p" "v1" "main"
                None true [] None Hrun) as (H1 & H2 & _ & _ & H5).
  split; [exact H1|]. split; [exact H2|].
  rewrite Hrun.
  apply (H5 [tag_at "v1" 1%Z] true None (Some 1%Z)
            [merge_commit "Merge" "g/p!42"]); try reflexivity.
  - discriminate.
  - by vm_compute; repeat constructor.
Defined.

(** C7, as stated, fails: the fetch of merge request 42 raises during the
    run, and the pipeline returns no error. *)
Lemma pipeline_swallows_fetch_error :
  retrieval_raises failing_fetch_client "p" "v1" "main" None
  /\ get_release_notes_by_tag id failing_fetch_client "p" "v1" "main" None
     = (true, [], None).
Proof.
  split; [|by vm_compute].
  right. exists [tag_at "v1" 1%Z], true, None, (Some 1%Z).
  repeat split; [done|]. right; right.
  exists [merge_commit "Merge" "g/p!42"], 42%Z.
  repeat split; [by apply (bool_decide_unpack _)|]. by eexists.
Qed.

(** * The classifier *)

Lemma none_of_Forall (l s : str) :
  Forall (fun x => none_of l x = true) s <-> forall c, c ∈ l -> c ∉ s.
Proof.
  rewrite Forall_forall. unfold none_of. split.
  - intros H c Hc Hin. apply H in Hin.
    apply negb_true_iff, bool_decide_eq_false in Hin. done.
  - intros H x Hx. apply negb_true_iff, bool_decide_eq_false.
    intros Hl. by apply (H x Hl).
Qed.

Lemma tag_matcher_matches n m post cs :
  matches false n (expr TAG_MATCHER_RE) m post [] cs <->
  exists type scope,
    m = type ++ "(" ++ scope ++ ")"
    /\ length (m ++ post) = n
    /\ type <> [] /\ (forall c, c ∈ ("( " : str) -> c ∉ type)
    /\ (LF ∉ scope)
    /\ (post = [] \/ post = [LF]) /\ cs = [(2, scope); (1, type)].
Proof.
  unfold TAG_MATCHER_RE; simpl expr. split.
  - intros H.
    apply matches_seq in H as (m1 & m2 & cs1 & -> & H1 & H).
    apply matches_bol in H1 as (-> & Hn & ->).
    apply matches_seq in H as (ty & m3 & cs1 & -> & H1 & H).
    apply matches_grp in H1 as (cs2 & H1 & ->).
    apply matches_plus_cls in H1 as (Hty & Hnone & ->).
    pose proof (proj1 (none_of_Forall _ _) Hnone) as Hnone'.
    apply matches_seq in H as (m1 & m4 & cs1 & -> & H1 & H).
    apply matches_lit in H1 as [->%lit_eq_exact ->].
    apply matches_seq in H as (sc & m5 & cs1 & -> & H1 & H).
    apply matches_grp in H1 as (cs2 & H1 & ->).
    apply matches_star_cls in H1 as (Hsc%dot_Forall & ->).
    apply matches_seq in H as (m1 & m6 & cs1 & -> & H1 & H).
    apply matches_lit in H1 as [->%lit_eq_exact ->].
    apply matches_eol in H as (-> & Hpost & ->).
    exists ty, sc. by rewrite app_nil_r in *.
  - intros (ty & sc & -> & Hn & Hty & Hnone & Hsc & Hpost & ->).
    apply matches_seq. exists [], (ty ++ "(" ++ sc ++ ")"), [].
    split; [done|]. split; [by apply matches_bol|].
    apply matches_seq. exists ty, ("(" ++ sc ++ ")"), [(1, ty)].
    split; [done|]. split.
    { apply matches_grp. exists []. split; [|done].
      by apply matches_plus_cls, conj; [|split; [apply none_of_Forall|]]. }
    apply matches_seq. exists ("(" : str), (sc ++ ")"), [(1, ty)].
    split; [done|]. split; [by apply matches_lit, conj; [apply lit_eq_exact|]|].
    apply matches_seq. exists sc, (")" : str), [(2, sc); (1, ty)].
    split; [done|]. split.
    { apply matches_grp. exists [(1, ty)]. split; [|done].
      by apply matches_star_cls, conj; [apply dot_Forall|]. }
    apply matches_seq. exists (")" : str), [], [(2, sc); (1, ty)].
    split; [done|]. split; [by apply matches_lit, conj; [apply lit_eq_exact|]|].
    by apply matches_eol.
Qed.

Lemma unique_before_first {A} (c : A) (X Y X' Y' : list A) :
  c ∉ X -> c ∉ X' -> X ++ c :: Y = X' ++ c :: Y' -> X = X' /\ Y = Y'.
Proof.
  revert X'. induction X as [|x X IH]; intros [|x' X'] HX HX' H; simpl in H.
  - by injection H.
  - injection H as <- _. exfalso. apply HX'. by left.
  - injection H as -> _. exfalso. apply HX. by left.
  - injection H as -> H. apply not_elem_of_cons in HX as [_ HX].
    apply not_elem_of_cons in HX' as [_ HX'].
    by destruct (IH _ HX HX' H) as [-> ->].
Qed.

Lemma rmatch_tag (type scope : str) :
  type <> [] -> (forall c, c ∈ ("( " : str) -> c ∉ type) -> LF ∉ scope ->
  rmatch TAG_MATCHER_RE (type ++ "(" ++ scope ++ ")")
  = Some [(2, scope); (1, type)].
Proof.
  intros Hty Hnone Hsc.
  destruct (rmatch_is_some TAG_MATCHER_RE (type ++ "(" ++ scope ++ ")")
              (type ++ "(" ++ scope ++ ")") [] [(2, scope); (1, type)])
    as [cs Hcs].
  { by rewrite app_nil_r. }
  { apply tag_matcher_matches. exists type, scope.
    rewrite app_nil_r. repeat split; try done. by left. }
  rewrite Hcs. f_equal.
  apply rmatch_some in Hcs as (m & post & Heq & H).
  apply tag_matcher_matches in H
    as (ty' & sc' & -> & _ & _ & Hnone' & _ & Hpost & ->).
  rewrite <- !app_assoc in Heq.
  change (("(" : str) ++ ?x) with ("("%char :: x) in Heq.
  apply unique_before_first in Heq as [-> Heq].
  2: { apply Hnone. by left. }
  2: { apply Hnone'. by left. }
  assert (scope = sc') as ->; [|done].
  destruct Hpost as [-> | ->].
  - rewrite app_nil_r in Heq. by apply app_inj_tail in Heq as [-> _].
  - change (sc' ++ ")" ++ [LF]) with (sc' ++ [")"%char] ++ [LF]) in Heq.
    rewrite app_assoc in Heq. by apply app_inj_tail in Heq as [_ [=]].
Qed.

Lemma rmatch_tag_inv tag cs :
  rmatch TAG_MATCHER_RE tag = Some cs ->
  exists type scope post,
    tag = type ++ "(" ++ scope ++ ")" ++ post
    /\ type <> [] /\ (" "%char ∉ type) /\ ("("%char ∉ type) /\ (LF ∉ scope)
    /\ (post = [] \/ post = [LF])
    /\ group cs 1 = type /\ group cs 2 = scope.
Proof.
  intros (m & post & -> & H)%rmatch_some.
  apply tag_matcher_matches in H
    as (ty & sc & -> & _ & Hty & Hnone & Hsc & Hpost & ->).
  exists ty, sc, post. rewrite <- !app_assoc. repeat split; try done.
  - apply Hnone. right. by left.
  - apply Hnone. by left.
Qed.

(** [strip] and [split] on texts of a known shape. *)
Lemma lstrip_head (s : str) c r : Py.lstrip s = c :: r -> Py.isspace c = false.
Proof.
  induction s as [|x s IH]; simpl; [done|].
  destruct (Py.isspace x) eqn:E; [done|]. by intros [= <- _].
Qed.

Lemma lstrip_suffix (s : str) : exists k, s = k ++ Py.lstrip s.
Proof.
  induction s as [|x s [k IH]]; simpl; [by exists []|].
  destruct (Py.isspace x); [|by exists []].
  exists (x :: k). simpl. by f_equal.
Qed.

Lemma rstrip_last (s : str) y c : Py.rstrip s = y ++ [c] -> Py.isspace c = false.
Proof.
  unfold Py.rstrip. intros H. apply (f_equal reverse) in H.
  rewrite reverse_involutive, reverse_snoc in H. by eapply lstrip_head.
Qed.

Lemma strip_last (s : str) y c : Py.strip s = y ++ [c] -> Py.isspace c = false.
Proof.
  unfold Py.strip. intros H.
  destruct (lstrip_suffix (Py.rstrip s)) as [k Hk]. rewrite H in Hk.
  rewrite app_assoc in Hk. by eapply rstrip_last.
Qed.

Lemma lstrip_id (c : ascii) (s : str) :
  Py.isspace c = false -> Py.lstrip (c :: s) = c :: s.
Proof. intros H. simpl. by rewrite H. Qed.

Lemma rstrip_id (s : str) (c : ascii) :
  Py.isspace c = false -> Py.rstrip (s ++ [c]) = s ++ [c].
Proof.
  intros H. unfold Py.rstrip. rewrite reverse_snoc, lstrip_id by done.
  by rewrite reverse_cons, reverse_involutive.
Qed.

Lemma strip_id (a c : ascii) (s : str) :
  Py.isspace a = false -> Py.isspace c = false ->
  Py.strip (a :: s ++ [c]) = a :: s ++ [c].
Proof.
  intros Ha Hc. unfold Py.strip.
  change (a :: s ++ [c]) with ((a :: s) ++ [c]).
  rewrite rstrip_id by done. by apply lstrip_id.
Qed.

Lemma strip_nospace (s : str) :
  Forall (fun c => Py.isspace c = false) s -> Py.strip s = s.
Proof.
  intros Hs. destruct s as [|a s]; [done|].
  destruct s as [|c s _] using rev_ind.
  - apply Forall_inv in Hs. unfold Py.strip.
    change [a] with ([] ++ [a]). rewrite rstrip_id by done. by apply lstrip_id.
  - apply Forall_cons in Hs as [Ha Hs]. apply Forall_app in Hs as [_ Hc].
    apply Forall_inv in Hc. by apply strip_id.
Qed.

Lemma split_once_app (c : ascii) (a b : str) :
  c ∉ a -> Py.split_once c (a ++ c :: b) = Some (a, b).
Proof.
  induction a as [|x a IH]; intros Ha; simpl.
  - by rewrite bool_decide_true.
  - apply not_elem_of_cons in Ha as [Hx Ha].
    rewrite bool_decide_false by done. by rewrite IH.
Qed.

Lemma split_once_none (c : ascii) (s : str) :
  c ∉ s -> Py.split_once c s = None.
Proof.
  induction s as [|x s IH]; intros Hs; simpl; [done|].
  apply not_elem_of_cons in Hs as [Hx Hs].
  rewrite bool_decide_false by done. by rewrite IH.
Qed.

Lemma kinds_get (tag : str) :
  default DEFAULT_KIND (KINDS !! tag) = kind_of_type tag.
Proof.
  unfold kind_of_type, KINDS.
  repeat (case_bool_decide; [subst; by vm_compute|]).
  rewrite !lookup_insert_ne by done. by rewrite ?lookup_singleton_ne, ?lookup_empty.
Qed.

Lemma is_type_facts (type : str) :
  is_type type ->
  type <> [] /\ Forall (fun c => Py.isspace c = false) type
  /\ (":"%char ∉ type) /\ ("("%char ∉ type) /\ (" "%char ∉ type).
Proof.
  intros [Hne H]. rewrite Forall_forall in H.
  split; [done|]. split; [|split; [|split]].
  - apply Forall_forall. intros c Hc. by apply H.
  - intros Hin. by destruct (H _ Hin) as (_ & _ & ?).
  - intros Hin. by destruct (H _ Hin) as (_ & ? & _).
  - intros Hin. by destruct (H _ Hin) as (? & _ & _).
Qed.

Lemma split_item_colon (item head rest : str) :
  Py.split_once ":" item = Some (head, rest) ->
  split_item item = (Py.strip head, Py.strip rest).
Proof. intros H. unfold split_item, Py.split1. by rewrite H. Qed.

Lemma split_item_no_colon (item : str) :
  Py.split_once ":" item = None -> split_item item = ([], Py.strip item).
Proof. intros H. unfold split_item, Py.split1. by rewrite H. Qed.

Lemma classify_no_colon (item : str) :
  ":"%char ∉ item -> classify item = (TITLE_OTHER, Py.strip item).
Proof.
  intros Hc. unfold classify, parse_tag.
  by rewrite split_item_no_colon by (by apply split_once_none).
Qed.

Lemma classify_plain (type summary : str) :
  is_type type ->
  classify (type ++ ":" ++ summary) = (kind_of_type type, Py.strip summary).
Proof.
  intros (Hne & Hsp & Hcolon & Hparen & Hblank)%is_type_facts.
  unfold classify, parse_tag.
  rewrite (split_item_colon _ type summary) by (by apply split_once_app).
  rewrite strip_nospace by done.
  unfold split_scope, Py.contains. rewrite (bool_decide_false _ Hparen).
  rewrite (bool_decide_false _ Hblank), andb_false_r.
  by rewrite kinds_get.
Qed.

Lemma classify_scoped (type scope summary : str) :
  is_type type -> is_scope scope ->
  classify (type ++ "(" ++ scope ++ "):" ++ summary)
  = (kind_of_type type,
     if bool_decide (scope = [] \/ scope = ("*" : str)) then Py.strip summary
     else scope ++ ": " ++ Py.strip summary).
Proof.
  intros (Hne & Hsp & Hcolon & Hparen & Hblank)%is_type_facts [Hsc Hlf].
  unfold classify, parse_tag.
  rewrite (split_item_colon _ (type ++ "(" ++ scope ++ ")") summary).
  2: { replace (type ++ "(" ++ scope ++ "):" ++ summary)
         with ((type ++ "(" ++ scope ++ ")") ++ ":"%char :: summary)
         by (by rewrite <- !app_assoc).
       apply split_once_app.
       rewrite !not_elem_of_app. split; [done|]. split; [|split; [done|]].
       - by apply (bool_decide_unpack _).
       - by apply (bool_decide_unpack _). }
  assert (Py.strip (type ++ "(" ++ scope ++ ")") = type ++ "(" ++ scope ++ ")")
    as ->.
  { destruct type as [|a type]; [done|]. apply Forall_cons in Hsp as [Ha _].
    replace ((a :: type) ++ "(" ++ scope ++ ")")
      with (a :: (type ++ "(" ++ scope) ++ [")"%char])
      by (by rewrite <- !app_assoc).
    by apply strip_id. }
  unfold split_scope, Py.contains. rewrite bool_decide_true.
  2: { apply elem_of_app. right. by left. }
  rewrite rmatch_tag; [|done| |done].
  2: { intros c [-> | [-> | []%elem_of_nil]%elem_of_cons]%elem_of_cons; done. }
  change (group [(2, scope); (1, type)] 1) with type.
  change (group [(2, scope); (1, type)] 2) with scope.
  repeat case_bool_decide; simpl; rewrite ?kinds_get;
    rewrite ?(bool_decide_false _ Hblank), ?andb_false_r; try done; tauto.
Qed.

(** C8: the three examples; the mapping of the types, [Other] for every type
    but the four of the table; a plain [type: summary] note gets the category
    of its type and the stripped summary; a scope that is not empty and not
    the literal star is put before the summary, while the star is dropped;
    and a note without a colon goes under [Other] with the whole stripped
    string as its summary. *)
Theorem classify_examples_and_mapping :
  classify "feat(api): add X" = (TITLE_NEW_FEATURE, "api: add X" : str)
  /\ classify "chore: bump deps" = (TITLE_OTHER, "bump deps" : str)
  /\ classify "no colon here" = (TITLE_OTHER, "no colon here" : str)
  /\ KINDS !! ("feat" : str) = Some TITLE_NEW_FEATURE
  /\ KINDS !! ("fix" : str) = Some TITLE_BUG_FIX
  /\ KINDS !! ("refactor" : str) = Some TITLE_CHANGES
  /\ KINDS !! ("docs" : str) = Some TITLE_DOCUMENTATION
  /\ (forall tag : str,
        tag ∉ [("feat" : str); ("fix" : str); ("refactor" : str); ("docs" : str)] ->
        KINDS !! tag = None /\ default DEFAULT_KIND (KINDS !! tag) = TITLE_OTHER)
  /\ (forall tag, default DEFAULT_KIND (KINDS !! tag) = kind_of_type tag)
  /\ (forall type summary, is_type type ->
        classify (type ++ ":" ++ summary) = (kind_of_type type, Py.strip summary))
  /\ (forall type scope summary,
        is_type type -> is_scope scope -> scope <> [] -> scope <> ("*" : str) ->
        classify (type ++ "(" ++ scope ++ "):" ++ summary)
        = (kind_of_type type, scope ++ ": " ++ Py.strip summary))
  /\ (forall type summary, is_type type ->
        classify (type ++ "(*):" ++ summary) = (kind_of_type type, Py.strip summary))
  /\ (forall item, ":"%char ∉ item ->
        classify item = (TITLE_OTHER, Py.strip item)).
Proof.
  repeat (split; [by vm_compute|]).
  split; [|split; [exact kinds_get | split; [exact classify_plain | split;
    [|split; [|exact classify_no_colon]]]]].
  - intros tag Hin.
    assert (KINDS !! tag = None) as H; [|by rewrite H].
    unfold KINDS.
    repeat (rewrite lookup_insert_ne;
            [|intros <-; apply Hin; by apply (bool_decide_unpack _)]).
    apply lookup_singleton_ne.
    intros <-; apply Hin; by apply (bool_decide_unpack _).
  - intros type scope summary Hty Hsc Hne Hstar.
    rewrite classify_scoped by done. rewrite bool_decide_false; [done | tauto].
  - intros type summary Hty.
    change (type ++ "(*):" ++ summary)
      with (type ++ "(" ++ ("*" : str) ++ "):" ++ summary).
    rewrite classify_scoped; [done | done |].
    split; by apply (bool_decide_unpack _).
Qed.

Lemma classify_examples_and_mapping_witness :
  classify (("fix" : str) ++ "(" ++ ("parser" : str) ++ "):" ++ (" keep order" : str))
  = (kind_of_type "fix", ("parser" : str) ++ ": " ++ Py.strip " keep order").
Proof.
  apply (proj1 (proj2 (proj2 (proj2 (proj2 (proj2 (proj2 (proj2 (proj2 (proj2
           (proj2 classify_examples_and_mapping))))))))))).
  - split; [discriminate|]. repeat constructor; discriminate.
  - split; by apply (bool_decide_unpack _).
  - discriminate.
  - discriminate.
Defined.

Lemma kind_of_spaced_tag (tag : str) :
  " "%char ∈ tag -> kind_of_type tag = TITLE_OTHER.
Proof.
  intros Hsp. unfold kind_of_type.
  repeat (case_bool_decide as H;
          [subst tag; by apply (bool_decide_pack _) in Hsp|]; clear H).
  done.
Qed.

Lemma classify_spaced_tag (item : str) :
  " "%char ∈ (parse_tag item).1 -> classify item = (TITLE_OTHER, item).
Proof.
  unfold classify. destruct (parse_tag item) as [tag summary]. simpl.
  intros Hsp. rewrite kinds_get, kind_of_spaced_tag by done.
  unfold Py.contains. rewrite (bool_decide_true _ Hsp).
  rewrite bool_decide_true; [done|]. by intros ->; apply elem_of_nil in Hsp.
Qed.

Lemma split_scope_unshaped (tag summary : str) :
  (forall y, tag <> y ++ [LF]) -> ~ tag_shape tag ->
  split_scope tag summary = (tag, summary).
Proof.
  intros Hlast Hshape. unfold split_scope.
  destruct (Py.contains "(" tag); [|done].
  destruct (rmatch TAG_MATCHER_RE tag) as [cs|] eqn:Hcs; [|done].
  exfalso. apply rmatch_tag_inv in Hcs
    as (ty & sc & post & Htag & Hty & Hsp & Hpar & Hlf & [-> | ->] & _).
  - apply Hshape. exists ty, sc. by rewrite app_nil_r in Htag.
  - apply (Hlast (ty ++ "(" ++ sc ++ ")")). by rewrite <- !app_assoc.
Qed.

(** C5, as amended: when the tag that the item ends up with contains a space,
    the item is put under [Other] with the whole original string as its
    summary.  That tag is the stripped text before the first colon, unless
    this text has the shape [type(scope)], in which case it is the type: so
    the guard applies to every item whose stripped text before the first
    colon contains a space and does not have that shape. *)
Theorem space_in_tag_guard :
  (forall item, " "%char ∈ (parse_tag item).1 ->
     classify item = (TITLE_OTHER, item))
  /\ (forall item head rest,
        Py.split_once ":" item = Some (head, rest) ->
        " "%char ∈ Py.strip head -> ~ tag_shape (Py.strip head) ->
        classify item = (TITLE_OTHER, item)).
Proof.
  split; [exact classify_spaced_tag|].
  intros item head rest Hsplit Hsp Hshape. apply classify_spaced_tag.
  unfold parse_tag. rewrite (split_item_colon _ _ _ Hsplit).
  rewrite split_scope_unshaped; [done | | done].
  intros y Hy. by apply strip_last in Hy.
Qed.

Lemma space_in_tag_guard_witness :
  classify "see the notes: they moved" = (TITLE_OTHER, "see the notes: they moved" : str).
Proof.
  apply (proj1 space_in_tag_guard "see the notes: they moved").
  by apply (bool_decide_unpack _).
Defined.

(** C5, as stated, fails: the text before the first colon of
    [feat(my scope): add X] contains a space, and the item is classified as a
    new feature with a colon-split summary. *)
Lemma space_in_scope_is_classified :
  Py.split_once ":" "feat(my scope): add X"
    = Some ("feat(my scope)" : str, " add X" : str)
  /\ " "%char ∈ ("feat(my scope)" : str)
  /\ classify "feat(my scope): add X"
     = (TITLE_NEW_FEATURE, "my scope: add X" : str)
  /\ classify "feat(my scope): add X"
     <> (TITLE_OTHER, "feat(my scope): add X" : str).
Proof.
  split; [by vm_compute|]. split; [by apply (bool_decide_unpack _)|].
  split; [by vm_compute|]. by vm_compute.
Qed.

(** * The exclusion filter *)

(** A character that is not a letter is its own and only match. *)
Lemma lower_eq_exact (c x : ascii) :
  c ∈ ("`'/-" ++ [DQUOTE] : str) -> Py.lower x = Py.lower c -> x = c.
Proof.
  intros Hc H.
  repeat (apply elem_of_cons in Hc as [-> | Hc]);
    [..|by apply elem_of_nil in Hc];
    destruct x as [[] [] [] [] [] [] [] []]; by vm_compute in H.
Qed.

Lemma nocase_eq_exact (l m : str) :
  Forall (fun c => c ∈ ("`'/-" ++ [DQUOTE] : str)) l -> nocase_eq m l -> m = l.
Proof.
  unfold nocase_eq. intros Hl. revert m.
  induction Hl as [|c l Hc _ IH]; intros [|x m] H; try discriminate; [done|].
  injection H as Hx Hm. f_equal; [by apply lower_eq_exact | by apply IH].
Qed.

Lemma nocase_app_inv (m a b : str) :
  nocase_eq m (a ++ b) ->
  exists ma mb, m = ma ++ mb /\ nocase_eq ma a /\ nocase_eq mb b.
Proof.
  unfold nocase_eq. rewrite map_app. intros H.
  exists (take (length a) m), (drop (length a) m).
  rewrite take_drop. split; [done|].
  rewrite <- (take_drop (length a) m), map_app in H.
  apply app_inj_1 in H as [H1 H2]; [done|].
  rewrite !length_map, length_take.
  apply (f_equal length) in H. rewrite !length_app, !length_map, length_take,
    length_drop in H. lia.
Qed.

Lemma nocase_app (ma mb a b : str) :
  nocase_eq ma a -> nocase_eq mb b -> nocase_eq (ma ++ mb) (a ++ b).
Proof. unfold nocase_eq. intros H1 H2. by rewrite !map_app, H1, H2. Qed.

Section Fenced.
Variable n : nat.

Lemma matches_quote m s cs cs' :
  matches true n quote m s cs cs' <->
  (m = ("'" : str) \/ m = [DQUOTE]) /\ cs' = cs.
Proof.
  unfold quote. rewrite matches_alt, !matches_lit, !lit_eq_nocase. split.
  - intros [[H ->] | [H ->]]; (split; [|done]).
    + left. apply nocase_eq_exact; [|done]. repeat constructor.
    + right. apply nocase_eq_exact; [|done]. repeat constructor.
  - intros [[-> | ->] ->]; [by left | by right].
Qed.

Lemma matches_opt_quote g m s cs cs' :
  matches true n (Opt (Grp g quote)) m s cs cs' -> opt_quote m.
Proof.
  intros [H | [-> _]]%matches_opt; [|by left].
  apply matches_grp in H as (cs1 & [H _]%matches_quote & _). by right.
Qed.

Lemma opt_quote_matches g m s cs :
  opt_quote m -> exists cs', matches true n (Opt (Grp g quote)) m s cs cs'.
Proof.
  intros [-> | H].
  - exists cs. apply matches_opt. by right.
  - exists ((g, m) :: cs). apply matches_opt. left.
    apply matches_grp. exists cs. split; [|done]. by apply matches_quote.
Qed.

Lemma matches_words m s cs cs' :
  matches true n words m s cs cs' <->
  (nocase_eq m "none" \/ nocase_eq m "n/a" \/ nocase_eq m "na") /\ cs' = cs.
Proof.
  unfold words. rewrite !matches_alt, !matches_lit, !lit_eq_nocase.
  unfold nocase_eq. tauto.
Qed.

Lemma matches_opt_words g m s cs cs' :
  matches true n (Opt (Grp g words)) m s cs cs' -> none_word m.
Proof.
  intros [H | [-> _]]%matches_opt; [|by left].
  apply matches_grp in H as (cs1 & [H _]%matches_words & _). by right.
Qed.

Lemma none_word_matches g m s cs :
  none_word m -> exists cs', matches true n (Opt (Grp g words)) m s cs cs'.
Proof.
  intros [-> | H].
  - exists cs. apply matches_opt. by right.
  - exists ((g, m) :: cs). apply matches_opt. left.
    apply matches_grp. exists cs. split; [|done]. by apply matches_words.
Qed.

Lemma fenced_sound m post cs :
  matches true n (expr FILTER_FENCED) m post [] cs -> fenced_none m.
Proof.
  unfold FILTER_FENCED; simpl expr. intros H.
  apply matches_seq in H as (m1 & r1 & cs1 & -> & H1 & H).
  apply matches_lit in H1 as [H1%lit_eq_nocase ->].
  apply (nocase_app_inv _ "```" "release-note") in H1
    as (fence & tagw & -> & Hf & Htag).
  apply nocase_eq_exact in Hf as ->.
  2: { repeat constructor. }
  apply matches_seq in H as (sfx & r2 & cs2 & -> & H1 & H).
  apply matches_opt in H1.
  assert (sfx = [] \/ nocase_eq sfx "s") as Hs.
  { destruct H1 as [[H1%lit_eq_nocase _]%matches_lit | [-> _]]; auto. }
  assert (cs2 = []) as ->.
  { by destruct H1 as [[_ ->]%matches_lit | [_ ->]]. }
  apply matches_seq in H as (ws1 & r3 & cs3 & -> & [Hw1 ->]%matches_star_cls & H).
  apply matches_seq in H as (q1 & r4 & cs4 & -> & Hq1%matches_opt_quote & H).
  apply matches_seq in H as (body & r5 & cs5 & -> & Hb%matches_opt_words & H).
  apply matches_seq in H as (q2 & r6 & cs6 & -> & Hq2%matches_opt_quote & H).
  apply matches_seq in H as (ws2 & r7 & cs7 & -> & [Hw2 ->]%matches_star_cls & H).
  apply matches_lit in H as [Hc%lit_eq_nocase ->].
  apply nocase_eq_exact in Hc as ->.
  2: { repeat constructor. }
  exists tagw, sfx, ws1, q1, body, q2, ws2.
  by rewrite <- !app_assoc.
Qed.

Lemma fenced_complete m post :
  fenced_none m -> exists cs, matches true n (expr FILTER_FENCED) m post [] cs.
Proof.
  intros (tagw & sfx & ws1 & q1 & body & q2 & ws2 & -> & Htag & Hs & Hw1 & Hq1
          & Hb & Hq2 & Hw2).
  unfold FILTER_FENCED; simpl expr.
  destruct (opt_quote_matches 1 q1 (body ++ q2 ++ ws2 ++ "```" ++ post) [] Hq1)
    as [cs1 H1].
  destruct (none_word_matches 2 body (q2 ++ ws2 ++ "```" ++ post) cs1 Hb)
    as [cs2 H2].
  destruct (opt_quote_matches 3 q2 (ws2 ++ "```" ++ post) cs2 Hq2)
    as [cs3 H3].
  exists cs3.
  replace ("```" ++ tagw ++ sfx ++ ws1 ++ q1 ++ body ++ q2 ++ ws2 ++ "```")
    with (("```" ++ tagw) ++ sfx ++ ws1 ++ q1 ++ body ++ q2 ++ ws2 ++ "```")
    by (by rewrite <- !app_assoc).
  apply matches_seq. eexists _, _, []. split; [done|]. split.
  { apply matches_lit. split; [|done]. apply lit_eq_nocase.
    by apply (nocase_app "```" tagw "```" "release-note"). }
  apply matches_seq. eexists _, _, []. split; [done|]. split.
  { apply matches_opt. destruct Hs as [-> | Hs]; [by right|].
    left. apply matches_lit. split; [|done]. by apply lit_eq_nocase. }
  apply matches_seq. eexists _, _, []. split; [done|]. split.
  { by apply matches_star_cls. }
  apply matches_seq. eexists _, _, cs1. split; [done|]. split.
  { by rewrite <- !app_assoc. }
  apply matches_seq. eexists _, _, cs2. split; [done|]. split.
  { by rewrite <- !app_assoc. }
  apply matches_seq. eexists _, _, cs3. split; [done|]. split.
  { by rewrite <- !app_assoc. }
  apply matches_seq. eexists _, _, cs3. split; [done|]. split.
  { by apply matches_star_cls. }
  apply matches_lit. split; [|done]. by apply lit_eq_nocase.
Qed.

End Fenced.

Lemma search_fenced (desc : str) :
  is_Some (search FILTER_FENCED desc) <->
  exists m, has_substring m desc /\ fenced_none m.
Proof.
  split.
  - intros [cs (pre & m & post & -> & H)%search_some].
    exists m. split; [by exists pre, post | by eapply fenced_sound].
  - intros (m & (pre & post & ->) & Hm).
    destruct (fenced_complete (length (pre ++ m ++ post)) m post Hm) as [cs H].
    by eapply search_is_some.
Qed.

Lemma search_directive (desc : str) :
  is_Some (search FILTER_DIRECTIVE desc) <->
  has_substring "/release-note-none" desc.
Proof.
  split.
  - intros [cs (pre & m & post & -> & H)%search_some].
    apply matches_lit in H as [->%lit_eq_exact _]. by exists pre, post.
  - intros (pre & post & ->).
    eapply (search_is_some _ _ pre _ post []); [done|].
    apply matches_lit. split; [|done]. by apply lit_eq_exact.
Qed.

Lemma matches_exclude_filter_spec (desc : str) :
  matches_exclude_filter desc = true <->
  (exists m, has_substring m desc /\ fenced_none m)
  \/ has_substring "/release-note-none" desc.
Proof.
  rewrite <- search_fenced, <- search_directive.
  unfold matches_exclude_filter, NOTE_EXCLUSION_FILTERS. simpl.
  repeat case_bool_decide; split; try done; try tauto.
Qed.

(** * The renderer *)

Lemma join_cons (sep l : str) (ls : list str) :
  Py.join sep (l :: ls) = l ++ concat (map (fun x => sep ++ x) ls).
Proof.
  revert l. induction ls as [|l' ls IH]; intros l.
  - simpl. by rewrite app_nil_r.
  - change (Py.join sep (l :: l' :: ls)) with (l ++ sep ++ Py.join sep (l' :: ls)).
    rewrite IH. simpl. by rewrite <- !app_assoc.
Qed.

Lemma section_cons (kind s : str) (rest : list str) :
  section kind (s :: rest)
  = kind ++ [LF] ++ "- - " ++ s
      ++ concat (map (fun x => [LF] ++ "- " ++ x) rest) ++ [LF].
Proof.
  unfold section. change (map ?f (s :: rest)) with (f s :: map f rest).
  rewrite join_cons, map_map. by rewrite <- !app_assoc.
Qed.

(** C2: every section the renderer emits gives its first summary two bullet
    markers: after the header line comes [- - summary], and only the later
    summaries come as [- summary].  On the notes [fix: a] and [fix: b] the
    output is the header, [- - a], [- b]. *)
Theorem first_bullet_is_doubled :
  (forall kind s rest,
     section kind (s :: rest)
     = kind ++ [LF] ++ "- - " ++ s
         ++ concat (map (fun x => [LF] ++ "- " ++ x) rest) ++ [LF])
  /\ join_notes [("fix: a" : str); ("fix: b" : str)]
     = "**Bug Fix:**" ++ [LF] ++ "- - a" ++ [LF] ++ "- b" ++ [LF]
  /\ join_notes [("fix: a" : str); ("fix: b" : str)]
     <> "**Bug Fix:**" ++ [LF] ++ "- a" ++ [LF] ++ "- b" ++ [LF].
Proof.
  split; [exact section_cons|]. split; by vm_compute.
Qed.

Lemma add_note_lookup (releases : gmap str (list str)) (item kind : str) :
  add_note releases item !! kind
  = if bool_decide (kind = (classify item).1)
    then Some (default [] (releases !! kind) ++ [(classify item).2])
    else releases !! kind.
Proof.
  unfold add_note. destruct (classify item) as [k summary]. simpl.
  destruct (decide (kind = k)) as [->|Hk].
  - rewrite (bool_decide_true (k = k)) by done.
    rewrite lookup_insert_eq. do 2 f_equal.
    case_bool_decide as Hin; [done|]. rewrite lookup_insert_eq.
    destruct (releases !! k) eqn:E; [|done]. exfalso. by apply Hin.
  - rewrite (bool_decide_false (kind = k)) by done.
    rewrite lookup_insert_ne by done.
    case_bool_decide; [done|]. by rewrite lookup_insert_ne.
Qed.

Lemma classify_kind (item : str) : (classify item).1 ∈ SORTED_KINDS.
Proof.
  unfold classify. destruct (parse_tag item) as [tag summary]. simpl.
  rewrite kinds_get. unfold kind_of_type.
  repeat case_bool_decide; by apply (bool_decide_unpack _).
Qed.

(** What the groups hold: no empty group, only known kinds, and only the
    summaries of the items. *)
Lemma group_notes_inv (P : str -> Prop) (items : list str) :
  Forall (fun item => P (classify item).2) items ->
  forall kind l, group_notes items !! kind = Some l ->
    l <> [] /\ Forall P l /\ kind ∈ SORTED_KINDS.
Proof.
  unfold group_notes. intros Hitems.
  assert (forall kind l, (∅ : gmap str (list str)) !! kind = Some l ->
            l <> [] /\ Forall P l /\ kind ∈ SORTED_KINDS) as H0.
  { intros kind l. by rewrite lookup_empty. }
  revert H0. generalize (∅ : gmap str (list str)).
  induction Hitems as [|item items Hitem _ IH]; intros rel Hrel; [done|].
  simpl. apply IH. intros kind l. rewrite add_note_lookup.
  case_bool_decide as Hk; [|by apply Hrel].
  intros [= <-]. split; [by destruct (default [] (rel !! kind))|].
  split; [|subst kind; apply classify_kind].
  apply Forall_app. split; [|by constructor].
  destruct (rel !! kind) as [l|] eqn:E; [|by constructor].
  by destruct (Hrel _ _ E) as (_ & ? & _).
Qed.

(** ** The lines of the rendered notes *)

Lemma shift_terminators {A} (f : A -> str) (rest : list A) : forall a : str,
  a ++ concat (map (fun x => [LF] ++ f x) rest) ++ [LF]
  = (a ++ [LF]) ++ concat (map (fun x => f x ++ [LF]) rest).
Proof.
  induction rest as [|x rest IH]; intros a; simpl.
  - by rewrite app_nil_r.
  - specialize (IH (a ++ LF :: f x)). rewrite <- !app_assoc in *. simpl in *.
    done.
Qed.

Lemma section_as_lines (kind : str) (l : list str) :
  section kind l = terminated (section_lines kind l).
Proof.
  unfold terminated, section_lines. destruct l as [|s rest].
  - unfold section. simpl. by rewrite <- !app_assoc.
  - rewrite section_cons.
    change (map ?f (s :: rest)) with (f s :: map f rest). cbv iota beta.
    change (map ?f (?a :: ?b :: ?c)) with (f a :: f b :: map f c).
    change (concat (?a :: ?b :: ?c)) with (a ++ b ++ concat c).
    rewrite map_map.
    rewrite (app_assoc kind), (app_assoc _ "- - "), (app_assoc _ s).
    rewrite (shift_terminators (fun x => "- " ++ x)).
    by rewrite <- !app_assoc.
Qed.

Lemma split_line (a rest : str) :
  LF ∉ a -> Py.split LF (a ++ LF :: rest) = a :: Py.split LF rest.
Proof.
  induction a as [|x a IH]; intros Ha.
  - done.
  - apply not_elem_of_cons in Ha as [Hx Ha].
    change (Py.split LF ((x :: a) ++ LF :: rest))
      with (if bool_decide (x = LF) then [] :: Py.split LF (a ++ LF :: rest)
            else match Py.split LF (a ++ LF :: rest) with
                 | l :: ls => (x :: l) :: ls
                 | [] => [[x]]
                 end).
    rewrite bool_decide_false by done. by rewrite IH.
Qed.

Lemma split_terminated (lines : list str) (rest : str) :
  Forall (fun line => LF ∉ line) lines ->
  Py.split LF (terminated lines ++ rest) = lines ++ Py.split LF rest.
Proof.
  unfold terminated. induction 1 as [|line lines Hline _ IH]; simpl; [done|].
  rewrite <- !app_assoc. simpl. by rewrite split_line, IH.
Qed.

(** The lines of sections joined by line feeds: a blank line closes each
    section. *)
Lemma split_joined_sections (secs : list (list str)) :
  secs <> [] -> Forall (Forall (fun line => LF ∉ line)) secs ->
  Py.split LF (Py.join [LF] (map terminated secs))
  = concat (map (fun lines => lines ++ [[]]) secs).
Proof.
  intros Hne Hsecs. induction Hsecs as [|sec secs Hsec Hsecs IH]; [done|].
  destruct secs as [|sec' secs].
  - simpl. rewrite <- (app_nil_r (terminated sec)), split_terminated by done.
    by rewrite app_nil_r.
  - change (Py.join [LF] (map terminated (sec :: sec' :: secs)))
      with (terminated sec ++ [LF] ++ Py.join [LF] (map terminated (sec' :: secs))).
    rewrite split_terminated by done.
    change (Py.split LF ([LF] ++ ?x)) with ([] :: Py.split LF x).
    rewrite IH by done. simpl. by rewrite <- !app_assoc.
Qed.

(** ** Stripping a bullet line *)

Lemma lstrip_snoc (z : str) (a : ascii) :
  Py.lstrip (z ++ [a])
  = match Py.lstrip z with
    | [] => if Py.isspace a then [] else [a]
    | l => l ++ [a]
    end.
Proof.
  induction z as [|x z IH]; simpl; [done|].
  by destruct (Py.isspace x).
Qed.

Lemma rstrip_cons (a : ascii) (y : str) :
  Py.rstrip (a :: y)
  = match Py.rstrip y with
    | [] => if Py.isspace a then [] else [a]
    | l => a :: l
    end.
Proof.
  unfold Py.rstrip. rewrite reverse_cons, lstrip_snoc.
  destruct (Py.lstrip (reverse y)) as [|c l] eqn:E;
    [by destruct (Py.isspace a)|].
  rewrite reverse_snoc.
  destruct (reverse (c :: l)) eqn:E'; [|done].
  apply (f_equal reverse) in E'. by rewrite reverse_involutive in E'.
Qed.

Lemma lstrip_idemp (s : str) : Py.lstrip (Py.lstrip s) = Py.lstrip s.
Proof.
  destruct (Py.lstrip s) as [|c r] eqn:E; [done|].
  apply lstrip_head in E. by apply lstrip_id.
Qed.

Lemma rstrip_idemp (s : str) : Py.rstrip (Py.rstrip s) = Py.rstrip s.
Proof.
  unfold Py.rstrip. by rewrite reverse_involutive, lstrip_idemp.
Qed.

Lemma strip_bullet_head (x : str) :
  Py.strip ("- " ++ x) = "-"%char :: Py.rstrip (" "%char :: x).
Proof.
  unfold Py.strip. change ("- " ++ x) with ("-"%char :: " "%char :: x).
  rewrite (rstrip_cons "-"). 
  by destruct (Py.rstrip (" "%char :: x)).
Qed.

Lemma bullet_item_strip (p s : str) :
  bullet_item p ("- " ++ s) = project_item p (Py.strip s).
Proof.
  unfold bullet_item. f_equal. rewrite strip_bullet_head.
  change (drop 1 ("-"%char :: ?r)) with r.
  unfold Py.strip. rewrite rstrip_idemp, rstrip_cons.
  by destruct (Py.rstrip s).
Qed.

(** ** Reading a section back *)

Lemma parse_blank (p : str) st : parse_line p st [] = st.
Proof. by destruct st. Qed.

Lemma parse_header (p kind : str) :
  kind ∈ SORTED_KINDS ->
  forall res cur, parse_line p (res, cur) kind = (res, Some (category_key kind)).
Proof.
  intros Hk res cur.
  repeat (apply elem_of_cons in Hk as [-> | Hk]; [by vm_compute|]).
  by apply elem_of_nil in Hk.
Qed.

Lemma find_category_bullet (r : str) :
  find_category categories ("-"%char :: r) = None.
Proof. by vm_compute. Qed.

Lemma parse_bullet (p key x : str) res :
  parse_line p (res, Some key) ("- " ++ x)
  = (<[key := default [] (res !! key) ++ [bullet_item p ("- " ++ x)]]> res,
     Some key).
Proof.
  unfold parse_line, bullet_item. rewrite strip_bullet_head.
  by rewrite find_category_bullet.
Qed.

Lemma parse_bullets (p key : str) (lines : list str) :
  Forall (fun line => exists x, line = "- " ++ x) lines -> lines <> [] ->
  forall res,
    foldl (parse_line p) (res, Some key) lines
    = (<[key := default [] (res !! key) ++ map (bullet_item p) lines]> res,
       Some key).
Proof.
  induction 1 as [|line lines [x ->] Hlines IH]; intros Hne res; [done|].
  cbn [foldl]. rewrite parse_bullet.
  destruct lines as [|line' lines]; [done|].
  rewrite IH by done. rewrite lookup_insert_eq, insert_insert_eq.
  simpl. by rewrite <- !app_assoc.
Qed.

Lemma section_bullets (kind : str) (l : list str) :
  Forall (fun line => exists x, line = "- " ++ x) (tail (section_lines kind l))
  /\ tail (section_lines kind l) <> [].
Proof.
  unfold section_lines. simpl. destruct l as [|s rest]; simpl.
  - split; [|done]. repeat constructor. by exists [].
  - split; [|done]. constructor; [by eexists|].
    apply Forall_forall. intros line (x & -> & _)%(list_elem_of_fmap (fun _ => _)).
    by eexists.
Qed.

Lemma parse_section (p kind : str) (l : list str) res cur :
  kind ∈ SORTED_KINDS ->
  foldl (parse_line p) (res, cur) (section_lines kind l ++ [[]])
  = (<[category_key kind :=
         default [] (res !! category_key kind)
         ++ map (bullet_item p) (tail (section_lines kind l))]> res,
     Some (category_key kind)).
Proof.
  intros Hk. rewrite foldl_app. cbn [foldl]. rewrite parse_blank.
  change (section_lines kind l) with (kind :: tail (section_lines kind l)).
  cbn [foldl]. rewrite parse_header by done.
  destruct (section_bullets kind l) as [Hb Hne].
  by rewrite parse_bullets.
Qed.

Lemma sections_present (rel : gmap str (list str)) :
  sections rel = map (fun sec => section sec.1 sec.2) (present rel SORTED_KINDS).
Proof.
  unfold sections, present. generalize SORTED_KINDS. intros kinds.
  induction kinds as [|kind kinds IH]; [done|].
  cbn [omap list_omap]. destruct (rel !! kind); cbn [fmap option_fmap option_map map].
  all: by rewrite IH.
Qed.

Lemma present_elem (rel : gmap str (list str)) kinds sec :
  sec ∈ present rel kinds -> sec.1 ∈ kinds /\ rel !! sec.1 = Some sec.2.
Proof.
  unfold present. intros (kind & Hk & H)%list_elem_of_omap.
  destruct (rel !! kind) as [l|] eqn:E; [|done]. injection H as <-. done.
Qed.

Lemma parse_sections (p : str) (secs : list (str * list str)) :
  Forall (fun sec => sec.1 ∈ SORTED_KINDS) secs ->
  forall res cur,
    (foldl (parse_line p) (res, cur)
       (concat (map (fun sec => section_lines sec.1 sec.2 ++ [[]]) secs))).1
    = foldl (file_section p) res secs.
Proof.
  induction 1 as [|[kind l] secs Hk _ IH]; intros res cur; [done|].
  cbn [map concat]. rewrite foldl_app. cbn [fst snd].
  rewrite parse_section by done. by rewrite IH.
Qed.

Lemma kind_no_line_feed (kind : str) : kind ∈ SORTED_KINDS -> LF ∉ kind.
Proof.
  intros Hk.
  repeat (apply elem_of_cons in Hk as [-> | Hk]; [by apply (bool_decide_unpack _)|]).
  by apply elem_of_nil in Hk.
Qed.

Lemma section_lines_no_line_feed (kind : str) (l : list str) :
  kind ∈ SORTED_KINDS -> Forall (fun s => LF ∉ s) l ->
  Forall (fun line => LF ∉ line) (section_lines kind l).
Proof.
  intros Hk Hl. unfold section_lines.
  constructor; [by apply kind_no_line_feed|].
  assert (LF ∉ ("- " : str)) as Hdash by (by apply (bool_decide_unpack _)).
  destruct Hl as [|s rest Hs Hrest]; cbn [map].
  - by repeat constructor.
  - constructor.
    + rewrite !not_elem_of_app. done.
    + apply Forall_forall.
      intros line (x & -> & Hx)%(list_elem_of_fmap (fun _ => _)).
      rewrite Forall_forall in Hrest. rewrite not_elem_of_app. split; [done|].
      by apply Hrest.
Qed.

(** Reading the rendered groups back files each section under its key. *)
Lemma parse_rendered (p : str) (rel : gmap str (list str)) :
  (forall kind l, rel !! kind = Some l -> Forall (fun s => LF ∉ s) l) ->
  parse_release_notes (Py.join [LF] (sections rel)) p
  = foldl (file_section p) ∅ (present rel SORTED_KINDS).
Proof.
  intros Hrel. unfold parse_release_notes. rewrite sections_present.
  assert (Forall (fun sec => sec.1 ∈ SORTED_KINDS) (present rel SORTED_KINDS))
    as Hkinds.
  { apply Forall_forall. intros sec Hsec. by apply present_elem in Hsec as [? _]. }
  destruct (present rel SORTED_KINDS) as [|sec secs] eqn:Hp; [done|].
  rewrite <- Hp in *.
  rewrite (map_ext _ (fun sec => terminated (section_lines sec.1 sec.2)))
    by (intros; apply section_as_lines).
  rewrite <- (map_map (fun sec => section_lines sec.1 sec.2) terminated).
  rewrite split_joined_sections.
  - rewrite map_map. by apply parse_sections.
  - rewrite Hp. done.
  - apply Forall_forall. intros lines (s & -> & Hs)%(list_elem_of_fmap (fun _ => _)).
    apply present_elem in Hs as [Hk Hl].
    apply section_lines_no_line_feed; [done|]. by eapply Hrel.
Qed.

Lemma present_cons (rel : gmap str (list str)) kind kinds :
  present rel (kind :: kinds)
  = match rel !! kind with
    | Some l => (kind, l) :: present rel kinds
    | None => present rel kinds
    end.
Proof. unfold present. cbn [omap list_omap]. by destruct (rel !! kind). Qed.

Lemma file_section_lookup (p k : str) r sec :
  file_section p r sec !! k
  = if bool_decide (k = category_key sec.1)
    then Some (default [] (r !! k)
               ++ map (bullet_item p) (tail (section_lines sec.1 sec.2)))
    else r !! k.
Proof.
  unfold file_section. case_bool_decide as Hk.
  - subst k. by rewrite lookup_insert_eq.
  - by rewrite lookup_insert_ne.
Qed.

Lemma filed_other (p k : str) (rel : gmap str (list str)) (kinds : list str) :
  k ∉ map category_key kinds ->
  forall r, foldl (file_section p) r (present rel kinds) !! k = r !! k.
Proof.
  induction kinds as [|kind kinds IH]; intros Hk r; [done|].
  cbn [map] in Hk. apply not_elem_of_cons in Hk as [Hne Hk].
  rewrite present_cons. destruct (rel !! kind) as [l|]; [|by apply IH].
  cbn [foldl]. rewrite IH by done. rewrite file_section_lookup.
  by rewrite bool_decide_false.
Qed.

Lemma filed_kind (p kind : str) (rel : gmap str (list str)) (kinds : list str) :
  NoDup (map category_key kinds) -> kind ∈ kinds ->
  forall r,
    foldl (file_section p) r (present rel kinds) !! category_key kind
    = match rel !! kind with
      | Some l =>
          Some (default [] (r !! category_key kind)
                ++ map (bullet_item p) (tail (section_lines kind l)))
      | None => r !! category_key kind
      end.
Proof.
  induction kinds as [|kind' kinds IH]; intros Hnd Hin r.
  { by apply elem_of_nil in Hin. }
  cbn [map] in Hnd. apply NoDup_cons in Hnd as [Hne Hnd].
  rewrite present_cons.
  apply elem_of_cons in Hin as [<- | Hin].
  - destruct (rel !! kind) as [l|]; [|by apply filed_other].
    cbn [foldl]. rewrite filed_other by done. rewrite file_section_lookup.
    by rewrite bool_decide_true.
  - assert (category_key kind <> category_key kind') as Hk.
    { intros Heq. apply Hne. rewrite <- Heq.
      by apply (list_elem_of_fmap_2 category_key). }
    destruct (rel !! kind') as [l'|]; [|by apply IH].
    cbn [foldl]. rewrite IH by done. rewrite file_section_lookup.
    by rewrite bool_decide_false.
Qed.

Lemma section_tail_items (p kind s : str) (rest : list str) :
  map (bullet_item p) (tail (section_lines kind (s :: rest)))
  = bullet_item p ("- - " ++ s)
      :: map (fun x => project_item p (Py.strip x)) rest.
Proof.
  unfold section_lines. cbn [map tail]. rewrite map_map.
  apply (f_equal2 cons); [done|].
  apply map_ext. intros x. apply bullet_item_strip.
Qed.

(** C4, as amended: when no summary contains a line feed, reading the rendered
    notes back gives, for each of the five kinds, nothing if the renderer has
    no group of that kind and otherwise one item per summary of the group,
    filed under the key of the kind; every item after the first of its
    section is the summary stripped of surrounding blanks, behind the project
    prefix, in the order of the group.  Nothing is filed under any other
    key, and the renderer has no group outside the five kinds and no empty
    group.  (The first item of a section is the one the renderer writes with
    two bullet markers; the statement leaves its text open.) *)
Theorem notes_read_back :
  forall items p,
    Forall (fun item => LF ∉ (classify item).2) items ->
    let parsed := parse_release_notes (join_notes items) p in
    (forall kind, kind ∈ SORTED_KINDS ->
       match group_notes items !! kind with
       | Some l =>
           exists first,
             parsed !! category_key kind
             = Some (first :: map (fun s => project_item p (Py.strip s)) (tail l))
       | None => parsed !! category_key kind = None
       end)
    /\ (forall k, k ∉ map category_key SORTED_KINDS -> parsed !! k = None)
    /\ (forall kind l, group_notes items !! kind = Some l ->
          kind ∈ SORTED_KINDS /\ l <> [])
    /\ categories = map (fun kind => (kind, category_key kind)) SORTED_KINDS.
Proof.
  intros items p Hitems parsed.
  pose proof (group_notes_inv (fun s => LF ∉ s) items Hitems) as Hinv.
  assert (parsed
          = foldl (file_section p) ∅ (present (group_notes items) SORTED_KINDS))
    as Hparsed.
  { apply parse_rendered. intros kind l Hl.
    by destruct (Hinv _ _ Hl) as (_ & ? & _). }
  split; [|split; [|split]].
  - intros kind Hk. rewrite Hparsed, filed_kind; [| |done].
    2: { by apply (bool_decide_unpack _). }
    destruct (group_notes items !! kind) as [l|] eqn:Hl; [|done].
    destruct (Hinv _ _ Hl) as (Hne & _ & _).
    destruct l as [|s rest]; [done|].
    rewrite section_tail_items. by eexists.
  - intros k Hk. by rewrite Hparsed, filed_other.
  - intros kind l Hl. by destruct (Hinv _ _ Hl) as (? & _ & ?).
  - by vm_compute.
Qed.

Lemma notes_read_back_witness :
  let items : list str :=
    [("fix: a" : str); ("fix: b " : str); ("feat(api): c" : str)] in
  exists first,
    parse_release_notes (join_notes items) "walle" !! category_key TITLE_BUG_FIX
    = Some (first :: map (fun s => project_item "walle" (Py.strip s))
                       (tail (default [] (group_notes items !! TITLE_BUG_FIX)))).
Proof.
  intros items.
  assert (Forall (fun item => LF ∉ (classify item).2) items) as Hitems.
  { repeat constructor; by apply (bool_decide_unpack _). }
  pose proof (proj1 (notes_read_back items "walle" Hitems) TITLE_BUG_FIX) as H.
  assert (group_notes items !! TITLE_BUG_FIX = Some [("a" : str); ("b" : str)])
    as Hg by (by vm_compute).
  rewrite Hg in H |- *. apply H. by apply (bool_decide_unpack _).
Defined.

(** C4, as stated, fails: a summary of two lines comes back as its first line
    only (and the first summary of the section comes back with a bullet
    marker in front). *)
Lemma multi_line_summary_not_recovered :
  let items : list str :=
    [("feat: a" : str); "feat(api): add" ++ [LF] ++ "more"] in
  group_notes items !! TITLE_NEW_FEATURE
    = Some [("a" : str); "api: add" ++ [LF] ++ "more"]
  /\ parse_release_notes (join_notes items) "p" !! ("new_features" : str)
     = Some [("**p**: - a" : str); ("**p**: api: add" : str)]
  /\ parse_release_notes (join_notes items) "p"
     <> regrouped "p" (group_notes items).
Proof.
  intros items. split; [by vm_compute|]. split; [by vm_compute|].
  intros H. apply (f_equal (fun m => m !! ("new_features" : str))) in H.
  by vm_compute in H.
Qed.

(** * Further properties of the renderer *)

Lemma summaries_of_cons (kind item : str) (items : list str) :
  summaries_of kind (item :: items)
  = if bool_decide ((classify item).1 = kind)
    then (classify item).2 :: summaries_of kind items
    else summaries_of kind items.
Proof. unfold summaries_of. simpl. by case_bool_decide. Qed.

Lemma foldl_add_note_lookup (items : list str) (kind : str) :
  forall rel : gmap str (list str),
    foldl add_note rel items !! kind
    = match summaries_of kind items with
      | [] => rel !! kind
      | l => Some (default [] (rel !! kind) ++ l)
      end.
Proof.
  induction items as [|item items IH]; intros rel; [done|].
  cbn [foldl]. rewrite IH, summaries_of_cons, add_note_lookup.
  destruct (decide ((classify item).1 = kind)) as [<-|Hne].
  - rewrite !bool_decide_true by done. cbn [default from_option].
    destruct (summaries_of _ items) as [|x l]; [done|].
    unfold id. by rewrite <- app_assoc.
  - rewrite (bool_decide_false (kind = _)) by done.
    by rewrite (bool_decide_false (_ = kind)) by done.
Qed.

(** X1: the grouping is a stable filter: the group of a kind holds the
    summaries of the items classified under that kind, in the order of the
    items, and a kind without items has no group. *)
Theorem group_notes_stable (items : list str) (kind : str) :
  group_notes items !! kind
  = match summaries_of kind items with
    | [] => None
    | l => Some l
    end.
Proof.
  unfold group_notes. rewrite foldl_add_note_lookup, lookup_empty.
  by destruct (summaries_of kind items).
Qed.

Lemma sections_by_kind (items : list str) :
  sections (group_notes items) = omap (section_of items) SORTED_KINDS.
Proof.
  unfold sections. apply list_omap_ext, Forall2_same_length_lookup.
  split; [done|]. intros i kind kind' H1 H2. rewrite H1 in H2.
  injection H2 as <-. unfold section_of, group_notes.
  rewrite foldl_add_note_lookup, lookup_empty.
  by destruct (summaries_of kind items).
Qed.

Lemma summaries_count (items : list str) :
  sum_list (map (fun kind => length (summaries_of kind items)) SORTED_KINDS)
  = length items.
Proof.
  induction items as [|item items IH]; [done|].
  cbn [length]. rewrite <- IH. clear IH.
  unfold SORTED_KINDS. cbn [map sum_list sum_list_with].
  rewrite !summaries_of_cons.
  pose proof (classify_kind item) as Hk.
  destruct (classify item) as [k s]. cbn [fst snd] in *.
  repeat (apply elem_of_cons in Hk as [-> | Hk]);
    [..|by apply elem_of_nil in Hk];
    repeat first [rewrite bool_decide_true by done
                 | rewrite bool_decide_false by done];
    cbn [length]; unfold id; lia.
Qed.

(** X2: the rendered notes are the sections of the five kinds in their fixed
    order, each made of the summaries of the items of its kind in the order
    of the items, a kind without items giving no section; and every item is
    counted in exactly one of the five kinds. *)
Theorem join_notes_by_kind (items : list str) :
  join_notes items = Py.join [LF] (omap (section_of items) SORTED_KINDS)
  /\ sum_list (map (fun kind => length (summaries_of kind items)) SORTED_KINDS)
     = length items.
Proof.
  split; [|apply summaries_count].
  unfold join_notes. by rewrite sections_by_kind.
Qed.

Lemma strip_nonblank_head (c : ascii) (s : str) :
  Py.isspace c = false -> Py.strip (c :: s) <> [].
Proof.
  intros Hc. unfold Py.strip. rewrite rstrip_cons, Hc.
  destruct (Py.rstrip s); by rewrite lstrip_id.
Qed.

Lemma kind_head (kind : str) :
  kind ∈ SORTED_KINDS -> exists c r, kind = c :: r /\ Py.isspace c = false.
Proof.
  intros Hk.
  repeat (apply elem_of_cons in Hk as [-> | Hk]; [by eexists _, _|]).
  by apply elem_of_nil in Hk.
Qed.

(** X3: the rendered notes are blank exactly when there is no item: any item
    at all gives a text that starts with the header of a section. *)
Theorem join_notes_blank (items : list str) :
  Py.strip (join_notes items) = [] <-> items = [].
Proof.
  split; [|by intros ->].
  destruct items as [|item items]; [done|]. intros Hblank. exfalso.
  unfold join_notes in Hblank. rewrite sections_by_kind in Hblank.
  assert (exists sec, sec ∈ omap (section_of (item :: items)) SORTED_KINDS)
    as [sec Hsec].
  { unfold section_of.
    destruct (summaries_of (classify item).1 (item :: items)) as [|x l] eqn:E.
    { rewrite summaries_of_cons, bool_decide_true in E by done. done. }
    exists (section (classify item).1 (x :: l)). apply list_elem_of_omap.
    exists (classify item).1. split; [apply classify_kind | by rewrite E]. }
  destruct (omap (section_of (item :: items)) SORTED_KINDS) as [|sec0 secs] eqn:E.
  { by apply elem_of_nil in Hsec. }
  assert (sec0 ∈ omap (section_of (item :: items)) SORTED_KINDS) as Hin.
  { rewrite E. by left. }
  apply list_elem_of_omap in Hin as (kind & Hk & Hs).
  unfold section_of in Hs.
  destruct (summaries_of kind (item :: items)) as [|x l]; [done|].
  injection Hs as <-. apply kind_head in Hk as (c & r & -> & Hc).
  rewrite join_cons in Hblank. unfold section in Hblank.
  rewrite <- !app_assoc in Hblank. simpl in Hblank.
  by apply strip_nonblank_head in Hblank.
Qed.

(** * Further properties of the range of a tag *)

Lemma find_tag_names (tags : list Tag) (name : str) :
  is_Some (find_tag tags name) <-> name ∈ map t_name tags.
Proof.
  induction tags as [|tag tags IH]; simpl.
  - split; [by intros [? [=]] | by intros ?%elem_of_nil].
  - case_bool_decide as Hn.
    + split; [intros _; apply elem_of_cons; by left | by eexists].
    + rewrite IH, elem_of_cons. split; [by right | by intros [-> | ?]].
Qed.

Lemma find_tag_exists (tags : list Tag) (name : str) :
  match find_tag tags name with Some _ => true | None => false end
  = bool_decide (name ∈ map t_name tags).
Proof.
  pose proof (find_tag_names tags name) as H.
  destruct (find_tag tags name) as [tag|].
  - rewrite bool_decide_true; [done|]. by apply H.
  - rewrite bool_decide_false; [done|]. intros Hin. by apply H in Hin as [? [=]].
Qed.

(** X4: with a [since] that names a tag, or else a commit that the forge
    knows, the range starts at the time of that tag or commit and ends at the
    time of the first tag that bears the target name; the target is reported
    as existing wherever it stands in the list of tags; and a [since] that
    names a tag never asks the forge for a commit. *)
Theorem resolve_range_since :
  forall client project tags tag_name since,
    since <> [] ->
    (forall tag, find_tag tags since = Some tag ->
       resolve_range client project tags tag_name (Some since)
       = (bool_decide (tag_name ∈ map t_name tags),
          Some (t_created_at tag),
          t_created_at <$> find_tag tags tag_name))
    /\ (forall commit,
          find_tag tags since = None ->
          get_commit client project since = Return (Some commit) ->
          resolve_range client project tags tag_name (Some since)
          = (bool_decide (tag_name ∈ map t_name tags),
             Some (c_created_at commit),
             t_created_at <$> find_tag tags tag_name)).
Proof.
  intros client project tags tag_name since Hne.
  assert (given (Some since) = Some since) as Hg by (by destruct since).
  split.
  - intros tag Htag. unfold resolve_range, resolve_since. rewrite Hg, Htag.
    rewrite <- find_tag_exists. by destruct (find_tag tags tag_name).
  - intros commit Htag Hc. unfold resolve_range, resolve_since.
    rewrite Hg, Htag, Hc.
    rewrite <- find_tag_exists. by destruct (find_tag tags tag_name).
Qed.

Lemma resolve_range_since_witness :
  resolve_range failing_fetch_client "p"
    [tag_at "v2" 20%Z; tag_at "v1" 10%Z; tag_at "v0" 5%Z]
    "v1" (Some ("v0" : str))
  = (bool_decide (("v1" : str) ∈ map t_name
                    [tag_at "v2" 20%Z; tag_at "v1" 10%Z; tag_at "v0" 5%Z]),
     Some (t_created_at (tag_at "v0" 5%Z)),
     t_created_at <$> find_tag
       [tag_at "v2" 20%Z; tag_at "v1" 10%Z; tag_at "v0" 5%Z] "v1").
Proof.
  apply (proj1 (resolve_range_since failing_fetch_client "p"
           [tag_at "v2" 20%Z; tag_at "v1" 10%Z; tag_at "v0" 5%Z] "v1" "v0"
           ltac:(discriminate))).
  reflexivity.
Defined.

(** X5: a [since] that names neither a tag nor a commit the forge returns
    (the lookup gives nothing, or raises) falls back on the automatic
    detection for [since_at]; the target is still reported as existing
    wherever it stands in the list, and [until_at] is the time of the last
    tag of the leading run of the target or, without such a run, of the first
    tag that bears the target name.  An empty [since] is no [since]. *)
Theorem resolve_range_since_fallback :
  forall client project tags tag_name since,
    (since <> [] ->
     find_tag tags since = None ->
     get_commit client project since = Return None
     \/ raises (get_commit client project since) ->
     resolve_range client project tags tag_name (Some since)
     = (bool_decide (tag_name ∈ map t_name tags),
        (resolve_range client project tags tag_name None).1.2,
        t_created_at <$>
          match last (leading tag_name tags) with
          | Some tag => Some tag
          | None => find_tag tags tag_name
          end))
    /\ resolve_range client project tags tag_name (Some [])
       = resolve_range client project tags tag_name None.
Proof.
  intros client project tags tag_name since. split; [|done].
  intros Hne Htag Hc.
  assert (given (Some since) = Some since) as Hg by (by destruct since).
  assert (resolve_since client project tags since = None) as Hs.
  { unfold resolve_since. rewrite Htag. by destruct Hc as [-> | [e ->]]. }
  unfold resolve_range. rewrite Hg, Hs. cbn [given].
  rewrite <- find_tag_exists.
  assert (leading tag_name tags <> [] -> is_Some (find_tag tags tag_name))
    as Hlead.
  { destruct tags as [|t0 tags0]; [done|]. simpl. by case_bool_decide. }
  destruct (find_tag tags tag_name) as [tag|] eqn:Ef;
    rewrite !auto_detect_spec; cbn [fst snd].
  - destruct (leading tag_name tags) as [|t run]; [done|].
    by destruct (last (t :: run)).
  - destruct (leading tag_name tags) as [|t run]; [done|].
    by destruct Hlead as [? [=]].
Qed.

Lemma resolve_range_since_fallback_witness :
  let tags := [tag_at "v2" 20%Z; tag_at "v1" 10%Z] in
  resolve_range failing_fetch_client "p" tags "v1" (Some ("nowhere" : str))
  = (bool_decide (("v1" : str) ∈ map t_name tags),
     (resolve_range failing_fetch_client "p" tags "v1" None).1.2,
     t_created_at <$>
       match last (leading "v1" tags) with
       | Some tag => Some tag
       | None => find_tag tags "v1"
       end).
Proof.
  intros tags.
  apply (proj1 (resolve_range_since_fallback failing_fetch_client "p" tags
                  "v1" "nowhere")).
  - discriminate.
  - reflexivity.
  - left. reflexivity.
Defined.

(** * Further properties of the merge requests of commits *)

Lemma omap_length_le {A B} (f : A -> option B) (l : list A) :
  length (omap f l) <= length l.
Proof.
  induction l as [|x l IH]; [done|]. cbn [omap list_omap].
  destruct (f x); simpl; lia.
Qed.

(** X6: whatever the order in which the pool completes the fetches, the merge
    requests found are, up to that order, those of the fetches that return a
    merge request, one per positive iid extracted from the commits and with
    no removal of duplicates: a fetch that finds nothing or raises only
    leaves its own merge request out. *)
Theorem mr_from_commits_collects :
  forall as_completed commits client project,
    (forall futures, as_completed futures ≡ₚ futures) ->
    mr_from_commits as_completed commits client project
      ≡ₚ omap collect (map (submit client project) (mr_iids commits))
    /\ (forall mr,
          mr ∈ mr_from_commits as_completed commits client project <->
          exists iid, iid ∈ mr_iids commits
                      /\ get_merge_request client project iid = Return (Some mr))
    /\ length (mr_from_commits as_completed commits client project)
       <= length (mr_iids commits).
Proof.
  intros ac commits client project Hac.
  assert (mr_from_commits ac commits client project
            ≡ₚ omap collect (map (submit client project) (mr_iids commits)))
    as Hperm.
  { rewrite mr_from_commits_iids.
    destruct (mr_iids commits) as [|iid iids]; [done|]. by rewrite Hac. }
  split; [done|]. split.
  - intros mr. rewrite Hperm, list_elem_of_omap. split.
    + intros ([iid r] & Hin & Hr).
      apply (list_elem_of_fmap (submit client project)) in Hin
        as (iid' & [= -> ->] & Hin).
      exists iid'. split; [done|].
      simpl in Hr. by destruct (get_merge_request client project iid') as [[?|]|];
        simplify_eq.
    + intros (iid & Hin & Hr). exists (submit client project iid). split.
      * by apply (list_elem_of_fmap_2 (submit client project)).
      * unfold submit. simpl. by rewrite Hr.
  - rewrite Hperm.
    etrans; [apply omap_length_le|]. by rewrite length_map.
Qed.

Lemma mr_from_commits_collects_witness :
  mr_from_commits id [merge_commit "Merge" "g/p!42"] failing_fetch_client "p"
    ≡ₚ omap collect (map (submit failing_fetch_client "p")
                      (mr_iids [merge_commit "Merge" "g/p!42"])).
Proof.
  apply (proj1 (mr_from_commits_collects id [merge_commit "Merge" "g/p!42"]
                  failing_fetch_client "p" ltac:(done))).
Defined.

(** * Further properties of the exclusion filter *)

Lemma has_substring_context (sub s pre post : str) :
  has_substring sub s -> has_substring sub (pre ++ s ++ post).
Proof.
  intros (a & b & ->). exists (pre ++ a), (b ++ post).
  by rewrite <- !app_assoc.
Qed.

(** X7: a marker excludes wherever it stands: a description that is excluded
    stays excluded with any text before and after it, and so does the merge
    request that carries it, whatever its labels. *)
Theorem exclusion_in_context :
  forall desc pre post,
    matches_exclude_filter desc = true ->
    matches_exclude_filter (pre ++ desc ++ post) = true
    /\ forall mr, mr_description mr = pre ++ desc ++ post -> condition mr = false.
Proof.
  intros desc pre post H.
  assert (matches_exclude_filter (pre ++ desc ++ post) = true) as H'.
  { apply matches_exclude_filter_spec.
    apply matches_exclude_filter_spec in H as [(m & Hm & Hf) | Hd].
    - left. exists m. split; [by apply has_substring_context | done].
    - right. by apply has_substring_context. }
  split; [done|]. intros mr Hmr. unfold condition. by rewrite Hmr, H'.
Qed.

Lemma exclusion_in_context_witness :
  matches_exclude_filter
    (("Closes the ticket. " : str) ++ ("/release-note-none" : str) ++ (" Thanks" : str))
  = true.
Proof.
  apply (exclusion_in_context "/release-note-none" "Closes the ticket. " " Thanks").
  reflexivity.
Defined.

(** * The notes of merge requests *)

Lemma generate_title_reference (mr : MergeRequest) :
  generate_title mr = mr_title mr ++ reference mr.
Proof. done. Qed.

(** X8: a merge request with a conventional title keeps its link and author
    in the summary: titled [type: summary] it goes under the category of the
    type with the stripped [summary (link) @author] as its line, and titled
    [type(scope): summary], for a scope that is not empty and not the star,
    with the scope put before that line. *)
Theorem conventional_title_classified :
  forall mr type summary,
    is_type type ->
    (mr_title mr = type ++ ":" ++ summary ->
     classify (generate_title mr)
     = (kind_of_type type, Py.strip (summary ++ reference mr)))
    /\ (forall scope,
          is_scope scope -> scope <> [] -> scope <> ("*" : str) ->
          mr_title mr = type ++ "(" ++ scope ++ "):" ++ summary ->
          classify (generate_title mr)
          = (kind_of_type type, scope ++ ": " ++ Py.strip (summary ++ reference mr))).
Proof.
  intros mr type summary Hty. split.
  - intros Ht. rewrite generate_title_reference, Ht, <- !app_assoc.
    by apply classify_plain.
  - intros scope Hsc Hne Hstar Ht.
    rewrite generate_title_reference, Ht, <- !app_assoc.
    rewrite classify_scoped by done.
    rewrite bool_decide_false; [done | tauto].
Qed.

Lemma conventional_title_classified_witness :
  let mr := {| mr_iid := 11; mr_title := "fix: handle empty tags";
               mr_description := []; mr_web_url := "https://forge/g/p/11";
               mr_labels := []; mr_username := "ana" |} in
  classify (generate_title mr)
  = (kind_of_type "fix", Py.strip ((" handle empty tags" : str) ++ reference mr)).
Proof.
  intros mr.
  apply (proj1 (conventional_title_classified mr "fix" " handle empty tags"
                  ltac:(split; [discriminate | repeat constructor; discriminate]))).
  reflexivity.
Defined.

Lemma split_once_inv (c : ascii) (s a b : str) :
  Py.split_once c s = Some (a, b) -> s = a ++ c :: b /\ c ∉ a.
Proof.
  revert a. induction s as [|x s IH]; intros a H; simpl in H; [done|].
  case_bool_decide as Hx.
  - injection H as <- <-. subst x. split; [done | by apply not_elem_of_nil].
  - destruct (Py.split_once c s) as [[a' b']|] eqn:E; [|done].
    injection H as <- <-. destruct (IH a' eq_refl) as [-> Ha].
    split; [done|]. apply not_elem_of_cons. split; [by intros ->|done].
Qed.

Lemma split_once_is_Some (c : ascii) (s : str) :
  c ∈ s -> is_Some (Py.split_once c s).
Proof.
  intros Hc. destruct (Py.split_once c s) as [p|] eqn:E; [by eexists|].
  exfalso. revert Hc E. induction s as [|x s IH]; intros Hc E.
  - by apply elem_of_nil in Hc.
  - simpl in E. case_bool_decide as Hx; [done|].
    apply elem_of_cons in Hc as [-> | Hc]; [done|].
    destruct (Py.split_once c s) as [[a b]|]; [done|]. by apply IH.
Qed.

Lemma rstrip_app_nonblank (x y : str) :
  Py.rstrip y <> [] -> Py.rstrip (x ++ y) = x ++ Py.rstrip y.
Proof.
  intros Hy. induction x as [|a x IH]; [done|].
  simpl. rewrite rstrip_cons, IH.
  destruct (x ++ Py.rstrip y) eqn:E; [|done].
  by apply app_eq_nil in E as [_ ?].
Qed.

Lemma lstrip_app_nonblank (a : str) (c : ascii) (r : str) :
  Py.isspace c = false ->
  exists k a', a = k ++ a' /\ Py.lstrip (a ++ c :: r) = a' ++ c :: r.
Proof.
  intros Hc. induction a as [|x a (k & a' & -> & IH)].
  - exists [], []. split; [done|]. by apply lstrip_id.
  - simpl. destruct (Py.isspace x).
    + exists (x :: k), a'. by split.
    + exists [], (x :: k ++ a'). by split.
Qed.

(** The text between two characters that are not blanks survives a strip. *)
Lemma strip_between (a m b : str) (c d : ascii) :
  Py.isspace c = false -> Py.isspace d = false ->
  exists k a' b',
    a = k ++ a' /\ Py.strip (a ++ c :: m ++ d :: b) = a' ++ c :: m ++ d :: b'.
Proof.
  intros Hc Hd. unfold Py.strip.
  assert (exists b', Py.rstrip (d :: b) = d :: b') as [b' Hb].
  { rewrite rstrip_cons, Hd. destruct (Py.rstrip b); by eexists. }
  replace (a ++ c :: m ++ d :: b) with ((a ++ c :: m) ++ d :: b)
    by (by rewrite <- app_assoc).
  rewrite rstrip_app_nonblank by (by rewrite Hb). rewrite Hb, <- app_assoc.
  destruct (lstrip_app_nonblank a c (m ++ d :: b') Hc) as (k & a' & -> & H).
  exists k, a', b'. split; [done|]. exact H.
Qed.

Lemma split_once_app_notin (c : ascii) (a s : str) :
  c ∉ a ->
  Py.split_once c (a ++ s)
  = (fun p : str * str => (a ++ p.1, p.2)) <$> Py.split_once c s.
Proof.
  induction a as [|x a IH]; intros Ha.
  - simpl. by destruct (Py.split_once c s) as [[??]|].
  - apply not_elem_of_cons in Ha as [Hx Ha]. simpl.
    rewrite bool_decide_false by done. rewrite IH by done.
    by destruct (Py.split_once c s) as [[??]|].
Qed.

(** X9: a merge request whose title has no colon and no parenthesis (and is
    not blank) goes under [Other] with its whole line, title, link and
    author, as the summary: unchanged when the link or the author has a
    colon, stripped otherwise. *)
Theorem plain_title_classified :
  forall mr,
    ":"%char ∉ mr_title mr -> "("%char ∉ mr_title mr ->
    (exists c, c ∈ mr_title mr /\ Py.isspace c = false) ->
    classify (generate_title mr)
    = (TITLE_OTHER,
       if bool_decide (":"%char ∈ reference mr) then generate_title mr
       else Py.strip (generate_title mr)).
Proof.
  intros mr Hcolon Hparen (c & Hc & Hsp).
  rewrite generate_title_reference. case_bool_decide as Hr.
  2: { apply classify_no_colon. by rewrite not_elem_of_app. }
  apply classify_spaced_tag.
  assert (exists R, reference mr = " ([!" ++ R) as [R HR] by (by eexists).
  rewrite HR in *.
  assert (":"%char ∈ R) as HRc.
  { apply elem_of_app in Hr as [Hr | Hr]; [|done].
    exfalso. revert Hr. by apply (bool_decide_unpack _). }
  destruct (split_once_is_Some _ _ HRc) as [[Ra Rb] HRs].
  assert (Py.split_once ":" (mr_title mr ++ " ([!" ++ R)
          = Some (mr_title mr ++ " ([!" ++ Ra, Rb)) as Hsplit.
  { rewrite app_assoc, split_once_app_notin, HRs.
    - simpl. by rewrite <- !app_assoc.
    - rewrite not_elem_of_app. split; [done|]. by apply (bool_decide_unpack _). }
  unfold parse_tag. rewrite (split_item_colon _ _ _ Hsplit).
  apply list_elem_of_split in Hc as (t1 & t2 & Ht).
  destruct (strip_between t1 (t2 ++ " ") ("[!" ++ Ra) c "(" Hsp eq_refl)
    as (k & a' & b' & -> & Hstrip).
  assert (Py.strip (mr_title mr ++ " ([!" ++ Ra)
          = (a' ++ c :: t2 ++ " ") ++ "("%char :: b') as Hhead.
  { transitivity (a' ++ c :: (t2 ++ " ") ++ "("%char :: b');
      [|rewrite <- !app_assoc; simpl; by rewrite <- ?app_assoc].
    rewrite <- Hstrip. f_equal. rewrite Ht, <- !app_assoc. simpl.
    by rewrite <- ?app_assoc. }
  assert (" "%char ∈ a' ++ c :: t2 ++ " ") as Hblank.
  { apply elem_of_app. right. right. apply elem_of_app. right. by left. }
  rewrite split_scope_unshaped.
  - cbn [fst]. rewrite Hhead. apply elem_of_app. by left.
  - intros y Hy. by apply strip_last in Hy.
  - intros (type & scope & Heq & _ & Hty & Htp & _). rewrite Hhead in Heq.
    change (type ++ "(" ++ scope ++ ")") with (type ++ "("%char :: scope ++ ")")
      in Heq.
    apply unique_before_first in Heq as [<- _]; [done| |done].
    rewrite Ht in Hparen. rewrite !not_elem_of_app in Hparen.
    destruct Hparen as [[_ Ha'] Hct].
    apply not_elem_of_cons in Hct as [Hcp Ht2].
    rewrite not_elem_of_app, not_elem_of_cons, not_elem_of_app.
    split; [done|]. split; [done|]. split; [done|].
    by apply (bool_decide_unpack _).
Qed.

Lemma plain_title_classified_witness :
  let mr := {| mr_iid := 12; mr_title := "Update the readme";
               mr_description := []; mr_web_url := "https://forge/g/p/12";
               mr_labels := []; mr_username := "ana" |} in
  classify (generate_title mr)
  = (TITLE_OTHER,
     if bool_decide (":"%char ∈ reference mr) then generate_title mr
     else Py.strip (generate_title mr)).
Proof.
  intros mr. apply (plain_title_classified mr).
  - by apply (bool_decide_unpack _).
  - by apply (bool_decide_unpack _).
  - exists "U"%char. split; [by left | reflexivity].
Defined.

(** * Merging the notes of several projects *)

Lemma extend_all_lookup (merged notes : gmap str (list str)) (k : str) :
  extend_all merged notes !! k
  = match notes !! k with
    | Some items => Some (default [] (merged !! k) ++ items)
    | None => merged !! k
    end.
Proof.
  unfold extend_all.
  apply (map_fold_weak_ind (fun r m =>
    r !! k = match m !! k with
             | Some items => Some (default [] (merged !! k) ++ items)
             | None => merged !! k
             end)).
  - by rewrite lookup_empty.
  - intros i x m r Hi Hr. destruct (decide (i = k)) as [->|Hne].
    + rewrite !lookup_insert_eq. rewrite Hi in Hr. by rewrite Hr.
    + by rewrite !lookup_insert_ne.
Qed.

Lemma merge_fold_lookup (l : list (str * gmap str (list str))) (k : str) :
  forall merged : gmap str (list str),
    default []
      (foldl (fun merged pn => extend_all merged pn.2) merged l !! k)
    = default [] (merged !! k)
      ++ concat (map (fun pn => default [] (pn.2 !! k)) l).
Proof.
  induction l as [|pn l IH]; intros merged; simpl.
  - by rewrite app_nil_r.
  - rewrite IH, extend_all_lookup.
    destruct (pn.2 !! k) as [items|]; simpl.
    + by rewrite <- app_assoc.
    + done.
Qed.

Lemma merge_notes_lookup (l : list (str * gmap str (list str))) (k : str) :
  default [] (merge_notes l !! k)
  = concat (map (fun pn => default [] (pn.2 !! k)) l).
Proof. unfold merge_notes. by rewrite merge_fold_lookup, lookup_empty. Qed.

Lemma category_lines_items (merged : gmap str (list str)) (category : str) :
  category_lines merged category
  = match default [] (merged !! category) with
    | [] => []
    | items =>
        (category_headers !!! category)
          :: map (fun item => "- " ++ item) items ++ [[]]
    end.
Proof. unfold category_lines. by destruct (merged !! category) as [[|??]|]. Qed.

Lemma merge_lines (l : list (str * gmap str (list str))) :
  map (category_lines (merge_notes l)) category_order
  = map (fun category =>
           match concat (map (fun pn => default [] (pn.2 !! category)) l) with
           | [] => []
           | items =>
               (category_headers !!! category)
                 :: map (fun item => "- " ++ item) items ++ [[]]
           end)
      category_order.
Proof.
  apply map_ext. intros category.
  by rewrite category_lines_items, merge_notes_lookup.
Qed.

(** X10: the merged document is, after the optional title line, one block
    per category in the fixed order of the categories; the block of a
    category holds the items of that category of all the projects, project
    after project in the order given, behind the header of the category and
    before an empty line; a category without items has no block, and items
    filed under any other key are not rendered. *)
Theorem merge_categorized_notes_spec :
  forall (all_project_notes : list (str * gmap str (list str))) product_name,
    merge_categorized_notes all_project_notes product_name
    = Py.join [LF]
        (title_lines product_name
         ++ concat
              (map (fun category =>
                      match concat (map (fun pn => default [] (pn.2 !! category))
                                      all_project_notes) with
                      | [] => []
                      | items =>
                          (category_headers !!! category)
                            :: map (fun item => "- " ++ item) items ++ [[]]
                      end)
                 category_order)).
Proof.
  intros l pn. unfold merge_categorized_notes. by rewrite merge_lines.
Qed.

(** X11: when no project has an item in any of the five categories, the
    merged document is empty without a product name (or with an empty one)
    and is the title line alone with one. *)
Theorem merge_categorized_notes_empty :
  forall (all_project_notes : list (str * gmap str (list str))),
    Forall (fun pn => Forall (fun category => default [] (pn.2 !! category) = [])
                        category_order)
      all_project_notes ->
    merge_categorized_notes all_project_notes None = []
    /\ merge_categorized_notes all_project_notes (Some []) = []
    /\ forall c name,
         merge_categorized_notes all_project_notes (Some (c :: name))
         = "# " ++ (c :: name) ++ " Release Notes" ++ [LF].
Proof.
  intros l Hl.
  assert (forall category, category ∈ category_order ->
            concat (map (fun pn => default [] (pn.2 !! category)) l) = [])
    as Hnone.
  { intros category Hc. induction Hl as [|pn l Hpn _ IH]; [done|].
    simpl. rewrite IH, app_nil_r. rewrite Forall_forall in Hpn. by apply Hpn. }
  assert (forall pn, merge_categorized_notes l pn = Py.join [LF] (title_lines pn))
    as Hm.
  { intros pn. unfold merge_categorized_notes. rewrite merge_lines.
    assert (forall order : list str,
              (forall category, category ∈ order ->
                 concat (map (fun pn => default [] (pn.2 !! category)) l) = []) ->
              concat
                (map (fun category =>
                        match concat (map (fun pn => default [] (pn.2 !! category)) l)
                        with
                        | [] => []
                        | items =>
                            (category_headers !!! category)
                              :: map (fun item => "- " ++ item) items ++ [[]]
                        end) order) = []) as Hall.
    { induction order as [|category order IH]; intros Ho; [done|].
      rewrite map_cons, concat_cons, IH.
      - rewrite Ho by (by left). done.
      - intros ? ?. apply Ho. by right. }
    rewrite Hall by done. by rewrite app_nil_r. }
  rewrite !Hm. split; [done|]. split; [done|]. intros c name.
  rewrite Hm. cbn [title_lines Py.join]. done.
Qed.

Lemma merge_categorized_notes_empty_witness :
  merge_categorized_notes [("api" : str, ∅); ("web" : str, ∅)] None = [].
Proof.
  apply (merge_categorized_notes_empty [("api" : str, ∅); ("web" : str, ∅)]).
  repeat constructor.
Defined.

(** * What the parser files, whatever the text *)

Lemma strip_head (s : str) c r : Py.strip s = c :: r -> Py.isspace c = false.
Proof. unfold Py.strip. apply lstrip_head. Qed.

Lemma strip_idemp (s : str) : Py.strip (Py.strip s) = Py.strip s.
Proof.
  destruct (Py.strip s) as [|a r] eqn:E; [done|].
  pose proof (strip_head _ _ _ E) as Ha.
  destruct r as [|c r _] using rev_ind.
  - unfold Py.strip. change [a] with ([] ++ [a]).
    rewrite rstrip_id by done. by apply lstrip_id.
  - apply strip_id; [done|].
    apply (strip_last s (a :: r) c). by rewrite E.
Qed.

Lemma find_category_in (cats : list (str * str)) (line key : str) :
  find_category cats line = Some key -> key ∈ map snd cats.
Proof.
  induction cats as [|[h k] cats IH]; simpl; [done|].
  destruct (Py.startswith h line).
  - intros [= ->]. by left.
  - intros H. right. by apply IH.
Qed.

Lemma parse_line_filed_well (p : str) st (line : str) :
  filed_well p st -> filed_well p (parse_line p st line).
Proof.
  destruct st as [res cur]. intros [Hres Hcur]. unfold parse_line.
  destruct (Py.strip line) as [|c r] eqn:El; [by split|].
  destruct (find_category categories (c :: r)) as [key|] eqn:Ef.
  { split; [done|]. intros cat [= <-]. by eapply find_category_in. }
  destruct cur as [cat|]; [|by split].
  destruct (Py.startswith "-" (c :: r)); [|by split].
  split; [|done]. cbn [fst]. intros k l.
  destruct (decide (k = cat)) as [->|Hne].
  - rewrite lookup_insert_eq. intros [= <-].
    split; [by apply Hcur|]. split; [by destruct (default [] (res !! cat))|].
    apply Forall_app. split.
    + destruct (res !! cat) as [l0|] eqn:E0; [|by constructor].
      by destruct (Hres _ _ E0) as (_ & _ & ?).
    + repeat constructor. eexists. split; [done|]. apply strip_idemp.
  - rewrite lookup_insert_ne by done. apply Hres.
Qed.

(** X12: whatever the text, the parser files items under the five category
    keys only, never files an empty list, and every item it files is the
    project prefix followed by a text without blanks around it. *)
Theorem parse_release_notes_filed_well :
  forall text p k l,
    parse_release_notes text p !! k = Some l ->
    k ∈ map snd categories /\ l <> []
    /\ Forall (fun x => exists item, x = project_item p item
                                     /\ Py.strip item = item) l.
Proof.
  intros text p. unfold parse_release_notes.
  assert (filed_well p (∅, None)) as H0.
  { split; [|done]. intros k l. cbn [fst]. by rewrite lookup_empty. }
  revert H0. generalize (∅ : gmap str (list str), @None str).
  induction (Py.split LF text) as [|line lines IH]; intros st Hst.
  - apply Hst.
  - cbn [foldl]. by apply IH, parse_line_filed_well.
Qed.

Lemma parse_release_notes_filed_well_witness :
  ("other" : str) ∈ map snd categories
  /\ [project_item "web" "tidy up"] <> []
  /\ Forall (fun x => exists item, x = project_item "web" item
                                   /\ Py.strip item = item)
       [project_item "web" "tidy up"].
Proof.
  apply (parse_release_notes_filed_well
           (("Other:" : str) ++ [LF] ++ ("-   tidy up  " : str)) "web" "other"
           [project_item "web" "tidy up"]).
  reflexivity.
Defined.

(** * The host of the forge *)

Lemma startswith_app (p s : str) : Py.startswith p (p ++ s) = true.
Proof.
  induction p as [|c p IH]; [done|]. simpl. by rewrite bool_decide_true, IH.
Qed.

(** X13: normalizing a host is idempotent; it leaves the empty host empty and
    a host that starts with [http://] or [https://] unchanged, and puts
    [https://] before any other, so that a host that is not empty always
    comes out with one of the two schemes. *)
Theorem normalize_gitlab_host_spec :
  forall v,
    normalize_gitlab_host (normalize_gitlab_host v) = normalize_gitlab_host v
    /\ (normalize_gitlab_host v = [] <-> v = [])
    /\ (v <> [] ->
        startswith_any [("http://" : str); ("https://" : str)]
          (normalize_gitlab_host v) = true)
    /\ (startswith_any [("http://" : str); ("https://" : str)] v = true ->
        normalize_gitlab_host v = v)
    /\ (v <> [] ->
        startswith_any [("http://" : str); ("https://" : str)] v = false ->
        normalize_gitlab_host v = "https://" ++ v).
Proof.
  intros v.
  assert (startswith_any [("http://" : str); ("https://" : str)]
            ("https://" ++ v) = true) as Hs.
  { unfold startswith_any. cbn [existsb].
    rewrite (startswith_app "https://" v). by rewrite orb_true_r. }
  assert (forall w : str, w <> [] -> bool_decide (w <> []) = true) as Hne.
  { intros w Hw. by apply bool_decide_eq_true. }
  unfold normalize_gitlab_host.
  destruct v as [|c v].
  { repeat split; try done. }
  rewrite (Hne (c :: v)) by done.
  destruct (startswith_any _ (c :: v)) eqn:E; cbn [negb andb].
  - rewrite (Hne (c :: v)), E by done. repeat split; try done.
  - rewrite (Hne ("https://" ++ c :: v)), Hs by done.
    repeat split; try done.
Qed.

Lemma normalize_gitlab_host_spec_witness :
  normalize_gitlab_host "gitlab.example.org" = "https://" ++ ("gitlab.example.org" : str).
Proof.
  apply (proj2 (proj2 (proj2 (proj2
           (normalize_gitlab_host_spec "gitlab.example.org"))))).
  - discriminate.
  - reflexivity.
Defined.

(** * The commands *)

Lemma join_split (s : str) : Py.join [LF] (Py.split LF s) = s.
Proof.
  induction s as [|x s IH]; [done|].
  cbn [Py.split]. case_bool_decide as Hx.
  - subst x. destruct (Py.split LF s) as [|l ls] eqn:E.
    + simpl in IH. by subst s.
    + change (Py.join [LF] ([] :: l :: ls))
        with ([] ++ [LF] ++ Py.join [LF] (l :: ls)).
      by rewrite IH.
  - destruct (Py.split LF s) as [|l ls] eqn:E.
    + simpl in IH. by subst s.
    + destruct ls as [|l' ls]; simpl in *; by rewrite <- IH.
Qed.

Lemma split_no_lf (s : str) : LF ∉ s -> Py.split LF s = [s].
Proof.
  induction s as [|x s IH]; [done|]. intros Hs.
  apply not_elem_of_cons in Hs as [Hx Hs].
  cbn [Py.split]. rewrite bool_decide_false by done. by rewrite IH.
Qed.

Lemma insert_entry_titled (entry title rest : str) :
  LF ∉ title ->
  insert_entry entry (title ++ LF :: rest)
  = if Py.startswith "#" title
    then title ++ [LF; LF] ++ entry ++ rest
    else entry ++ title ++ LF :: rest.
Proof.
  intros Ht. unfold insert_entry. rewrite split_line by done.
  by rewrite join_split.
Qed.

Lemma insert_entry_one_line (entry title : str) :
  LF ∉ title ->
  insert_entry entry title
  = if Py.startswith "#" title
    then title ++ [LF; LF] ++ entry
    else entry ++ title.
Proof.
  intros Ht. unfold insert_entry. rewrite split_no_lf by done.
  cbn [Py.join]. by rewrite app_nil_r.
Qed.

Lemma split_first_startswith (s first : str) (rest : list str) :
  Py.split LF s = first :: rest ->
  Py.startswith "#" first = Py.startswith "#" s.
Proof.
  destruct s as [|x s]; [by intros [= <- <-]|].
  cbn [Py.split]. case_bool_decide as Hx.
  - intros [= <- <-]. subst x. done.
  - destruct (Py.split LF s); by intros [= <- <-].
Qed.

Lemma insert_entry_untitled (entry current : str) :
  Py.startswith "#" current = false ->
  insert_entry entry current = entry ++ current.
Proof.
  intros Hc. unfold insert_entry.
  destruct (Py.split LF current) as [|first rest] eqn:E; [done|].
  by rewrite (split_first_startswith _ _ _ E), Hc.
Qed.

(** X14: in a file whose first line starts with [#], the entry goes after
    that line and a blank line, and what followed the line follows the
    entry; in any other file, the entry goes before everything. With a
    title, a second entry goes above the first one. *)
Theorem insert_entry_spec :
  forall entry title rest,
    LF ∉ title ->
    (Py.startswith "#" title = true ->
       insert_entry entry (title ++ LF :: rest)
       = title ++ [LF; LF] ++ entry ++ rest
       /\ insert_entry entry title = title ++ [LF; LF] ++ entry
       /\ forall entry',
            insert_entry entry' (insert_entry entry (title ++ LF :: rest))
            = title ++ [LF; LF] ++ entry' ++ [LF] ++ entry ++ rest)
    /\ (Py.startswith "#" title = false ->
          insert_entry entry (title ++ LF :: rest)
          = entry ++ title ++ LF :: rest
          /\ insert_entry entry title = entry ++ title).
Proof.
  intros entry title rest Ht. split; intros Hs.
  - rewrite insert_entry_titled, insert_entry_one_line, Hs by done.
    split; [done|]. split; [done|]. intros entry'.
    change (title ++ [LF; LF] ++ entry ++ rest)
      with (title ++ LF :: ([LF] ++ entry ++ rest)).
    by rewrite insert_entry_titled, Hs.
  - by rewrite insert_entry_titled, insert_entry_one_line, Hs.
Qed.

Lemma insert_entry_spec_witness :
  insert_entry "E" ("# Log" ++ LF :: "old")
  = "# Log" ++ [LF; LF] ++ "E" ++ ("old" : str)
  /\ insert_entry "E" "# Log" = "# Log" ++ [LF; LF] ++ ("E" : str)
  /\ forall entry',
       insert_entry entry' (insert_entry "E" ("# Log" ++ LF :: "old"))
       = "# Log" ++ [LF; LF] ++ entry' ++ [LF] ++ "E" ++ ("old" : str).
Proof.
  apply (insert_entry_spec "E" "# Log" "old").
  - apply (bool_decide_unpack _). by vm_compute.
  - reflexivity.
Defined.

(** X15: a file that does not start with [#] gets the first entry at its
    top; the heading of that entry then counts as the title of the file,
    and the entry of the next release goes between that heading and the
    notes that belong to it. *)
Theorem second_entry_splits_first :
  forall tag notes current entry',
    LF ∉ tag ->
    Py.startswith "#" current = false ->
    insert_entry (changelog_entry tag notes) current
    = changelog_entry tag notes ++ current
    /\ insert_entry entry' (insert_entry (changelog_entry tag notes) current)
       = "## " ++ tag ++ [LF; LF] ++ entry' ++ [LF] ++ notes ++ [LF; LF]
         ++ current.
Proof.
  intros tag notes current entry' Ht Hc.
  rewrite insert_entry_untitled by done. split; [done|].
  unfold changelog_entry.
  change (("## " ++ tag ++ [LF; LF] ++ notes ++ [LF; LF]) ++ current)
    with ((("## " : str) ++ (tag ++ [LF; LF] ++ notes ++ [LF; LF])) ++ current).
  rewrite <- !app_assoc. rewrite (app_assoc "## " tag).
  change ([LF; LF] ++ notes ++ [LF; LF] ++ current)
    with (LF :: ([LF] ++ notes ++ [LF; LF] ++ current)).
  rewrite insert_entry_titled.
  - by rewrite <- !app_assoc.
  - intros Hin. apply elem_of_app in Hin as [Hin|Hin]; [|done].
    revert Hin. apply (bool_decide_unpack _). by vm_compute.
Qed.

Lemma second_entry_splits_first_witness :
  insert_entry (changelog_entry "v1" "notes") [] = changelog_entry "v1" "notes" ++ []
  /\ insert_entry (changelog_entry "v2" "more")
       (insert_entry (changelog_entry "v1" "notes") [])
     = "## " ++ "v1" ++ [LF; LF] ++ changelog_entry "v2" "more" ++ [LF]
       ++ "notes" ++ [LF; LF] ++ [].
Proof.
  apply (second_entry_splits_first "v1" "notes" [] (changelog_entry "v2" "more")).
  - apply (bool_decide_unpack _). by vm_compute.
  - reflexivity.
Defined.

(** ** What the commands print and change *)

Ltac cbn_cmd :=
  cbn [mbind mret cmd_bind cmd_ret echo echo_err return_ call look when
       try_except of_outcome negb andb orb app fst snd existsb is_error
       changes_forge List.filter default from_option guarded].

(** One step of a run: the test or the call on which the run depends is
    split into its cases, the earlier statements of the command first. *)
Ltac step_cmd :=
  match goal with
  | |- context [blank ?s] => destruct (blank s) eqn:?
  | |- context [when ?b _] => is_var b; destruct b
  | |- context [when (negb ?b) _] => is_var b; destruct b
  | |- context [given ?o] => destruct (given o) eqn:?
  | |- context [of_outcome ?o] => destruct o as [[]|?]
  | |- context [of_outcome ?o] => destruct o as [[?|]|?]
  | |- context [of_outcome ?o] => destruct o as [?|?]
  end.

Ltac run_cmd := repeat (cbn_cmd; try step_cmd); cbn_cmd.

Ltac in_inv H :=
  repeat (apply elem_of_cons in H as [H|H]; [try discriminate H|]);
  try (by apply elem_of_nil in H).

Ltac in_here :=
  cbn [fst];
  repeat first [by apply list_elem_of_here | apply list_elem_of_further].

(** X16: with [--dry-run] or [--markdown-only], when the pipeline reports an
    error, and without [--tag-only] when the notes are blank, the release
    command asks the forge for no change. *)
Theorem release_changes_nothing :
  forall as_completed client env project ref tag since dry_run markdown_only
         tag_only output tag_exists notes error,
    get_release_notes_by_tag as_completed client project tag ref since
    = (tag_exists, notes, error) ->
    dry_run = true \/ markdown_only = true \/ is_Some error
    \/ (blank notes = true /\ tag_only = false) ->
    Forall (fun ev => changes_forge ev = false)
      (release as_completed client env project ref tag since
         dry_run markdown_only tag_only output).1.
Proof.
  intros ????????????? error Hp H.
  remember (release _ _ _ _ _ _ _ _ _ _ _) as run eqn:Hrun.
  revert Hrun H. unfold release.
  destruct (markdown_only && tag_only) eqn:Hmt;
    [intros -> _; repeat constructor|].
  rewrite Hp. unfold release_steps.
  destruct error as [error|]; [run_cmd; intros -> _; repeat constructor|].
  run_cmd; intros -> [|[|[[? [=]]|[]]]]; try discriminate; repeat constructor.
Qed.

Lemma release_changes_nothing_witness :
  Forall (fun ev => changes_forge ev = false)
    (release id sample_client willing_env "p" "main" "v3" None
       true false false None).1.
Proof.
  eapply (release_changes_nothing id sample_client willing_env "p" "main" "v3"
            None true false false None).
  - vm_compute. reflexivity.
  - by left.
Defined.

(** X17: the release command returns 0 or 1, and 1 exactly when it has
    printed an error. *)
Theorem release_result_reports :
  forall as_completed client env project ref tag since dry_run markdown_only
         tag_only output,
    let run := release as_completed client env project ref tag since
                 dry_run markdown_only tag_only output in
    (run.2 = 0%Z \/ run.2 = 1%Z)
    /\ (run.2 = 1%Z <-> existsb is_error run.1 = true).
Proof.
  cbv zeta. intros.
  remember (release _ _ _ _ _ _ _ _ _ _ _) as run eqn:Hrun.
  revert Hrun. unfold release.
  destruct (markdown_only && tag_only) eqn:Hmt;
    [intros ->; cbn; split; [auto|done]|].
  unfold release_steps.
  destruct (get_release_notes_by_tag _ _ _ _ _ _) as [[tag_exists notes] [error|]];
    run_cmd; intros ->; cbn_cmd; (split; [auto|done]).
Qed.

(** X18: the release command creates the tag only when the forge has none of
    that name, and uploads a release only with notes that are not blank,
    without [--tag-only], for a tag that was there or that it has just
    created; it writes a file only with [--markdown-only], at the path of
    [--output]. *)
Theorem release_forge_calls :
  forall as_completed client env project ref tag since dry_run markdown_only
         tag_only output tag_exists notes error,
    get_release_notes_by_tag as_completed client project tag ref since
    = (tag_exists, notes, error) ->
    let run := release as_completed client env project ref tag since
                 dry_run markdown_only tag_only output in
    (forall p t r m, CreateTag p t r m ∈ run.1 ->
       (p, t, r, m) = (project, tag, ref, "Release " ++ tag)
       /\ tag_exists = false /\ dry_run = false /\ markdown_only = false
       /\ error = None)
    /\ (forall p t d, UpsertRelease p t d ∈ run.1 ->
          (p, t, d) = (project, tag, notes)
          /\ blank notes = false /\ tag_only = false /\ dry_run = false
          /\ markdown_only = false /\ error = None
          /\ (tag_exists = true
              \/ create_tag env project tag ref ("Release " ++ tag)
                 = Return true))
    /\ (forall path content, WriteFile path content ∈ run.1 ->
          markdown_only = true /\ given output = Some path
          /\ content = release_document tag notes).
Proof.
  cbv zeta. intros ????????????? error Hp.
  remember (release _ _ _ _ _ _ _ _ _ _ _) as run eqn:Hrun.
  revert Hrun. unfold release.
  destruct (markdown_only && tag_only) eqn:Hmt.
  { intros ->. repeat split; intros; in_inv H. }
  rewrite Hp. unfold release_steps.
  destruct error as [error|]; run_cmd; intros ->;
    (split; [|split]); intros ???; try intros ?; try intros ?;
    match goal with H : _ ∈ _ |- _ => in_inv H end; simplify_eq; auto 10.
Qed.

Lemma release_forge_calls_witness :
  let run := release id sample_client willing_env "p" "main" "v3" None
               false false false None in
  (forall p t r m, CreateTag p t r m ∈ run.1 ->
     (p, t, r, m) = (("p" : str), ("v3" : str), ("main" : str), "Release " ++ "v3")
     /\ false = false /\ false = false /\ false = false /\ @None exn = None)
  /\ CreateTag "p" "v3" "main" ("Release " ++ "v3") ∈ run.1.
Proof.
  split.
  - eapply (release_forge_calls id sample_client willing_env "p" "main" "v3"
              None false false false None).
    vm_compute. reflexivity.
  - vm_compute. do 4 right. left.
Defined.

(** X19: when the release command returns 0 without [--dry-run],
    [--markdown-only] and [--tag-only] for notes that are not blank, the
    forge has accepted the release, and the tag if it had to be created. *)
Theorem release_success :
  forall as_completed client env project ref tag since output
         tag_exists notes error,
    get_release_notes_by_tag as_completed client project tag ref since
    = (tag_exists, notes, error) ->
    blank notes = false ->
    let run := release as_completed client env project ref tag since
                 false false false output in
    run.2 = 0%Z ->
    error = None
    /\ UpsertRelease project tag notes ∈ run.1
    /\ upsert_release env project tag notes = Return true
    /\ (tag_exists = false ->
        CreateTag project tag ref ("Release " ++ tag) ∈ run.1
        /\ create_tag env project tag ref ("Release " ++ tag) = Return true).
Proof.
  cbv zeta. intros ?????????? error Hp Hb.
  remember (release _ _ _ _ _ _ _ _ _ _ _) as run eqn:Hrun.
  revert Hrun. unfold release. cbn [andb]. rewrite Hp. unfold release_steps.
  rewrite Hb.
  destruct error as [error|]; run_cmd; intros -> [=];
    repeat split; try done; try intros _;
    repeat split; try done; in_here.
Qed.

Lemma release_success_witness :
  let run := release id sample_client willing_env "p" "main" "v3" None
               false false false None in
  exists notes, UpsertRelease "p" "v3" notes ∈ run.1.
Proof.
  intros run. eexists.
  eapply (release_success id sample_client willing_env "p" "main" "v3" None
            None).
  - vm_compute. reflexivity.
  - by vm_compute.
  - by vm_compute.
Defined.

(** X20: for blank notes the release command stops after saying so, whatever
    the other options and even if the tag is missing, unless [--tag-only] is
    given: then it goes on and creates the missing tag. *)
Theorem release_without_notes :
  forall as_completed client env project ref tag since dry_run markdown_only
         tag_only output tag_exists notes,
    get_release_notes_by_tag as_completed client project tag ref since
    = (tag_exists, notes, None) ->
    blank notes = true ->
    let run := release as_completed client env project ref tag since
                 dry_run markdown_only tag_only output in
    (tag_only = false -> run = ([Echo NO_NOTES], 0%Z))
    /\ (tag_only = true -> markdown_only = false -> dry_run = false ->
        tag_exists = false ->
        CreateTag project tag ref ("Release " ++ tag) ∈ run.1
        /\ forall p t d, UpsertRelease p t d ∉ run.1).
Proof.
  cbv zeta. intros ???????????? notes Hp Hb.
  remember (release _ _ _ _ _ _ _ _ _ _ _) as run eqn:Hrun.
  revert Hrun. unfold release.
  split.
  - intros ->. rewrite andb_false_r in Hrun. revert Hrun. rewrite Hp.
    unfold release_steps. rewrite Hb. by cbn_cmd.
  - intros -> -> -> ->. revert Hrun. cbn [andb]. rewrite Hp.
    unfold release_steps. rewrite Hb.
    run_cmd; intros ->;
      (split; [in_here|intros p t d Hin; in_inv Hin]).
Qed.

Lemma release_without_notes_witness :
  release id failing_fetch_client willing_env "p" "main" "v9" None
    false false false None
  = ([Echo NO_NOTES], 0%Z).
Proof.
  eapply (release_without_notes id failing_fetch_client willing_env "p" "main"
            "v9" None false false false None).
  - vm_compute. reflexivity.
  - by vm_compute.
  - reflexivity.
Defined.

(** X21: with [--dry-run] or [--markdown-only], when the pipeline reports an
    error and when the notes are blank, the changelog command asks the forge
    for no change. *)
Theorem changelog_changes_nothing :
  forall as_completed client env project ref tag since file dry_run
         markdown_only output tag_exists notes error,
    get_release_notes_by_tag as_completed client project tag ref since
    = (tag_exists, notes, error) ->
    dry_run = true \/ markdown_only = true \/ is_Some error
    \/ blank notes = true ->
    Forall (fun ev => changes_forge ev = false)
      (changelog as_completed client env project ref tag since file
         dry_run markdown_only output).1.
Proof.
  intros ????????????? error Hp H.
  remember (changelog _ _ _ _ _ _ _ _ _ _ _) as run eqn:Hrun.
  revert Hrun H. unfold changelog.
  rewrite Hp. unfold changelog_steps.
  destruct error as [error|]; [run_cmd; intros -> _; repeat constructor|].
  run_cmd; intros -> [|[|[[? [=]]|]]]; try discriminate; repeat constructor.
Qed.

Lemma changelog_changes_nothing_witness :
  Forall (fun ev => changes_forge ev = false)
    (changelog id sample_client willing_env "p" "main" "v3" None "CHANGELOG.md"
       false true (Some ("entry.md" : str))).1.
Proof.
  eapply (changelog_changes_nothing id sample_client willing_env "p" "main" "v3"
            None "CHANGELOG.md" false true (Some ("entry.md" : str))).
  - vm_compute. reflexivity.
  - right. by left.
Defined.

(** X22: the changelog command returns 0 or 1, and 1 exactly when it has
    printed an error. *)
Theorem changelog_result_reports :
  forall as_completed client env project ref tag since file dry_run
         markdown_only output,
    let run := changelog as_completed client env project ref tag since file
                 dry_run markdown_only output in
    (run.2 = 0%Z \/ run.2 = 1%Z)
    /\ (run.2 = 1%Z <-> existsb is_error run.1 = true).
Proof.
  cbv zeta. intros.
  remember (changelog _ _ _ _ _ _ _ _ _ _ _) as run eqn:Hrun.
  revert Hrun. unfold changelog, changelog_steps.
  destruct (get_release_notes_by_tag _ _ _ _ _ _) as [[tag_exists notes] [error|]];
    run_cmd; intros ->; cbn_cmd; (split; [auto|done]).
Qed.

(** X23: what the changelog command asks the forge to change is the start of
    three calls in this order: a branch [changelog-] followed by the tag
    from the reference, the file with the entry inserted on that branch, a
    merge request from the branch to the reference. It stops at the first
    call that fails; when it returns 0 without [--dry-run] and
    [--markdown-only] for notes that are not blank, the three calls were
    made and the forge accepted them. *)
Theorem changelog_forge_calls :
  forall as_completed client env project ref tag since file dry_run
         markdown_only output tag_exists notes error,
    get_release_notes_by_tag as_completed client project tag ref since
    = (tag_exists, notes, error) ->
    let run := changelog as_completed client env project ref tag since file
                 dry_run markdown_only output in
    let current_content :=
      match get_file env project file ref with
      | Return content => default [] content
      | Raise _ => []
      end in
    let branch_name := "changelog-" ++ tag in
    let title := "Update " ++ file ++ " for " ++ tag in
    let description := "Automated changelog update for release " ++ tag in
    let new_content :=
      insert_entry (changelog_entry tag notes) current_content in
    let calls :=
      [CreateBranch project branch_name ref;
       UpdateFile project file new_content title branch_name;
       CreateMergeRequest project branch_name ref title description] in
    List.filter changes_forge run.1 `prefix_of` calls
    /\ (run.2 = 0%Z -> dry_run = false -> markdown_only = false ->
        blank notes = false ->
        List.filter changes_forge run.1 = calls
        /\ create_branch env project branch_name ref = Return true
        /\ update_file env project file new_content title branch_name
           = Return true
        /\ exists mr_data,
             create_merge_request env project branch_name ref title description
             = Return (Some mr_data)).
Proof.
  cbv zeta. intros ????????????? error Hp.
  remember (changelog _ _ _ _ _ _ _ _ _ _ _) as run eqn:Hrun.
  revert Hrun. unfold changelog. rewrite Hp. unfold changelog_steps.
  destruct error as [error|]; run_cmd; intros ->; cbn_cmd;
    (split; [by eexists|]); intros; try done; eauto 10.
Qed.

Lemma changelog_forge_calls_witness :
  let run := changelog id sample_client willing_env "p" "main" "v3" None
               "CHANGELOG.md" false false None in
  exists notes,
    List.filter changes_forge run.1
    = [CreateBranch "p" ("changelog-" ++ "v3") "main";
       UpdateFile "p" "CHANGELOG.md"
         (insert_entry (changelog_entry "v3" notes) [])
         ("Update " ++ "CHANGELOG.md" ++ " for " ++ "v3")
         ("changelog-" ++ "v3");
       CreateMergeRequest "p" ("changelog-" ++ "v3") "main"
         ("Update " ++ "CHANGELOG.md" ++ " for " ++ "v3")
         ("Automated changelog update for release " ++ "v3")].
Proof.
  intros run. eexists.
  eapply (changelog_forge_calls id sample_client willing_env "p" "main" "v3"
            None "CHANGELOG.md" false false None).
  - vm_compute. reflexivity.
  - by vm_compute.
  - reflexivity.
  - reflexivity.
  - by vm_compute.
Defined.

(** * The exclusion filter and the notes *)







